(** * Coturn custom load balancer: hysteresis health checks and endpoint selection

    A shallow embedding of [coturn_loadbalancer.py].  The two module globals
    [turn_server] and [turn_data] are threaded explicitly through every
    function that reads or writes them; Python exceptions are values of an
    error monad; [random.choice] takes the random draw as an argument; the
    samples of the metrics are Python floats, [inf] and [nan] included. *)

From Stdlib Require Import String List ZArith QArith Lia Bool Arith.
Import ListNotations.

Local Open Scope string_scope.
Local Open Scope list_scope.
Local Open Scope Z_scope.

(** ** Python exceptions and the error monad *)

Inductive exn : Type :=
| TypeError          (* subscripting or arithmetic on None *)
| AttributeError     (* a method call on None *)
| KeyError           (* a missing dict key *)
| IndexError         (* random.choice on an empty sequence *)
| ValueError         (* min of an empty sequence *)
| StatisticsError    (* statistics.mean on no data *)
| ConfigError        (* the Exception raised by process_metrics *)
| BodyError.         (* response.json()['data']['result'] failing *)

Inductive result (A : Type) : Type :=
| Ret (a : A)
| Raise (e : exn).
Arguments Ret {A} a.
Arguments Raise {A} e.

Definition bind {A B : Type} (m : result A) (k : A -> result B) : result B :=
  match m with
  | Ret a => k a
  | Raise e => Raise e
  end.

Notation "x <- m ;; k" := (bind m (fun x => k))
  (at level 61, m at next level, right associativity).

Definition of_option {A : Type} (e : exn) (o : option A) : result A :=
  match o with
  | Some a => Ret a
  | None => Raise e
  end.

(** ** Python dicts: insertion-ordered association lists with unique keys *)

Module Dict.

Definition t (V : Type) : Type := list (string * V).

Fixpoint get {V : Type} (k : string) (d : t V) : option V :=
  match d with
  | [] => None
  | (k', v) :: d' => if String.eqb k k' then Some v else get k d'
  end.

(** [d[k] = v]: an existing key keeps its position, a new one goes last. *)
Fixpoint set {V : Type} (k : string) (v : V) (d : t V) : t V :=
  match d with
  | [] => [(k, v)]
  | (k', v') :: d' =>
      if String.eqb k k' then (k', v) :: d' else (k', v') :: set k v d'
  end.

Definition keys {V : Type} (d : t V) : list string := map fst d.
Definition values {V : Type} (d : t V) : list V := map snd d.

End Dict.

(** [x in xs] on strings. *)
Definition str_in (x : string) (xs : list string) : bool :=
  existsb (String.eqb x) xs.

(** [random.choice(seq)], the draw [r] being supplied by the caller. *)
Definition choice {A : Type} (r : nat) (seq : list A) : result A :=
  of_option IndexError (nth_error seq (r mod length seq)%nat).

(** ** Configuration and the two globals *)

Record Config : Type := {
  addressMapping : list (string * string);  (* turn.addressMapping *)
  successThreshold : Z;                     (* healthCheck.successThreshold *)
  algorithm : string;                       (* loadBalancer.algorithm *)
  durationMinutes : Z                       (* loadBalancer.durationMinutes *)
}.

(** One value of [turn_data]. *)
Record EndpointHealth : Type := {
  initial : Z;
  success_th : Z;
  failed_checks : option Z;
  healthy : option bool
}.

Definition with_failed_checks (e : EndpointHealth) (c : Z) : EndpointHealth :=
  {| initial := initial e; success_th := success_th e;
     failed_checks := Some c; healthy := healthy e |}.

Definition with_healthy (e : EndpointHealth) (h : bool) : EndpointHealth :=
  {| initial := initial e; success_th := success_th e;
     failed_checks := failed_checks e; healthy := Some h |}.

Record Globals : Type := {
  turn_server : option string;
  turn_data : option (Dict.t EndpointHealth)
}.

Definition set_turn_server (g : Globals) (s : string) : Globals :=
  {| turn_server := Some s; turn_data := turn_data g |}.

Definition set_turn_data (g : Globals) (d : Dict.t EndpointHealth) : Globals :=
  {| turn_server := turn_server g; turn_data := Some d |}.

(** A Python float: a finite value, [inf], [-inf] or [nan].  The finite
    values are the rationals they denote. *)
Inductive pyfloat : Type :=
| Finite (q : Q)
| PInf
| NInf
| NaN.

(** [x < y] on floats: false as soon as one side is [nan]. *)
Definition float_lt (x y : pyfloat) : bool :=
  match x, y with
  | NaN, _ | _, NaN => false
  | Finite p, Finite q => negb (Qle_bool q p)
  | Finite _, PInf => true
  | Finite _, NInf => false
  | PInf, _ => false
  | NInf, NInf => false
  | NInf, _ => true
  end.

(** [x == y] on floats: [nan] is equal to nothing, itself included. *)
Definition float_eq (x y : pyfloat) : bool :=
  match x, y with
  | Finite p, Finite q => Qeq_bool p q
  | PInf, PInf => true
  | NInf, NInf => true
  | _, _ => false
  end.

(** [t + x] on floats of which one at least is not finite. *)
Definition special_add (t x : pyfloat) : pyfloat :=
  match t, x with
  | NaN, _ | _, NaN => NaN
  | PInf, NInf | NInf, PInf => NaN
  | Finite _, _ => x
  | _, _ => t
  end.

(** One element of the list returned by the range query: the label dict of the
    series and its [[timestamp, value]] pairs, each value already read as a
    float (the [float(value[1])] of the source, which accepts the spellings
    of [inf] and [nan] as well). *)
Record Series : Type := {
  metric : Dict.t string;
  values : list (Q * pyfloat)
}.

(** What [requests.get] and the decoding of the body can do. *)
Inductive http_outcome : Type :=
| RequestFailed                      (* requests.get raised *)
| ResponseNotOk                      (* response.ok is false *)
| ResponseMalformed                  (* response.json()['data']['result'] raises *)
| ResponseResult (l : list Series).

(** What [get_prometheus_metrics] returns: the exception object, the
    formatted response, or the result list. *)
Inductive query_return : Type :=
| QError
| QText
| QList (l : list Series).

(** [x is True], [x is False] and the truth value of [x] for a value that is
    [None], [True] or [False]. *)
Definition is_True (h : option bool) : bool :=
  match h with Some true => true | _ => false end.
Definition is_False (h : option bool) : bool :=
  match h with Some false => true | _ => false end.
Definition truth (h : option bool) : bool :=
  match h with Some b => b | None => false end.

(** The truth value of [turn_server]: [None] and the empty string are false. *)
Definition server_truth (s : option string) : bool :=
  match s with
  | Some a => negb (String.eqb a "")
  | None => false
  end.

Section Program.

Variable config : Config.

(** [turn['addressMapping'].values()] *)
Definition registry : list string := map snd (addressMapping config).

(** [[srv for srv, data in turn_data.items() if data['healthy'] is True]] *)
Definition healthy_servers (d : Dict.t EndpointHealth) : list string :=
  map fst (filter (fun item => is_True (healthy (snd item))) d).

(** [[0 for v in turn_data.values() if v['healthy'] is False]] *)
Definition unhealthy_marks (d : Dict.t EndpointHealth) : list Z :=
  map (fun _ => 0) (filter (fun v => is_False (healthy v)) (Dict.values d)).

(** [n in range(lo, hi)] *)
Definition in_range (n lo hi : nat) : bool :=
  (lo <=? n)%nat && (n <? hi)%nat.

(** *** class Fallback *)

Definition random_server (r : nat) (g : Globals) : result Globals :=
  final_server <- choice r registry ;;
  Ret (set_turn_server g final_server).

Definition random_healthy_server (r : nat) (g : Globals) : result Globals :=
  d <- of_option AttributeError (turn_data g) ;;
  match healthy_servers d with
  | [] => random_server r g
  | hs => final_server <- choice r hs ;;
          Ret (set_turn_server g final_server)
  end.

(** *** class HealthCheck *)

Definition check_current_server (r : nat) (g : Globals) : result Globals :=
  if server_truth (turn_server g) then
    d <- of_option AttributeError (turn_data g) ;;
    if in_range (length (unhealthy_marks d)) 1 (length d) then
      match turn_server g with
      | Some a =>
          if negb (str_in a (healthy_servers d))
          then random_healthy_server r g
          else Ret g
      | None => Ret g
      end
    else Ret g
  else Ret g.

(** Lines 80-106: the update of ['failed_checks']. *)
Definition update_failed_checks (e : EndpointHealth) (healthcheck_passed : bool)
  : result EndpointHealth :=
  match healthy e with
  | None =>
      if healthcheck_passed
      then Ret (with_failed_checks e 0)
      else Ret (with_failed_checks e (success_th e))
  | Some h =>
      if healthcheck_passed then
        match failed_checks e with
        | None => Raise TypeError
        | Some c =>
            if c =? initial e then Ret e
            else if h && (c >? initial e)
                 then Ret (with_failed_checks e (initial e))
                 else Ret (with_failed_checks e (c - 1))
        end
      else
        match failed_checks e with
        | None => Raise TypeError
        | Some c =>
            if c =? success_th e then Ret e
            else if negb h && (c <? success_th e)
                 then Ret (with_failed_checks e (success_th e))
                 else Ret (with_failed_checks e (c + 1))
        end
  end.

(** Lines 108-115: the update of ['healthy']. *)
Definition update_healthy (e : EndpointHealth) : EndpointHealth :=
  match failed_checks e with
  | None => e
  | Some c =>
      if c =? 0 then
        if negb (is_True (healthy e)) then with_healthy e true else e
      else if c =? success_th e then
        if negb (is_False (healthy e)) then with_healthy e false else e
      else e
  end.

(** The hysteresis update rule on one record. *)
Definition hysteresis (e : EndpointHealth) (healthcheck_passed : bool)
  : result EndpointHealth :=
  e' <- update_failed_checks e healthcheck_passed ;;
  Ret (update_healthy e').

Definition process_health_check (server : string) (healthcheck_passed : bool)
           (r : nat) (g : Globals) : result Globals :=
  d <- of_option TypeError (turn_data g) ;;
  e <- of_option KeyError (Dict.get server d) ;;
  e' <- hysteresis e healthcheck_passed ;;
  check_current_server r (set_turn_data g (Dict.set server e' d)).

(** [HealthCheck.run], before its loop: the initial [turn_data]. *)
Definition initial_health : EndpointHealth :=
  {| initial := 0; success_th := successThreshold config;
     failed_checks := None; healthy := None |}.

Definition initial_turn_data : Dict.t EndpointHealth :=
  fold_left (fun d server => Dict.set server initial_health d) registry [].

(** *** class LoadBalancer *)

(** [float(Fraction)]: the rounding of an exact rational to a float, which
    [statistics.mean] applies to the exact mean of its data. *)
Variable float_of_fraction : Q -> Q.

Definition get_prometheus_metrics (resp : http_outcome)
           (healthy_servers : list string) : result query_return :=
  match resp with
  | RequestFailed => Ret QError
  | ResponseNotOk => Ret QText
  | ResponseMalformed => Raise BodyError
  | ResponseResult l => Ret (QList l)
  end.

(** The inner [for label, value in ...items()] with its [break]. *)
Fixpoint find_label (items : Dict.t string) : option string :=
  match items with
  | [] => None
  | (label, value) :: rest =>
      if str_in value registry then Some label else find_label rest
  end.

Fixpoint process_metrics_from (values_dict : Dict.t (list pyfloat))
         (query_result : list Series) : result (Dict.t (list pyfloat)) :=
  match query_result with
  | [] => Ret values_dict
  | server_metric :: rest =>
      let metric_label := find_label (metric server_metric) in
      if negb (server_truth metric_label) then Raise ConfigError
      else
        let lines_list := map snd (values server_metric) in
        if Z.of_nat (length lines_list) <? durationMinutes config then
          process_metrics_from values_dict rest
        else
          label <- of_option TypeError metric_label ;;
          server <- of_option KeyError (Dict.get label (metric server_metric)) ;;
          process_metrics_from (Dict.set server lines_list values_dict) rest
  end.

Definition process_metrics (query_result : list Series)
  : result (Dict.t (list pyfloat)) :=
  process_metrics_from [] query_result.

(** [partials[None]] of [statistics._sum]: the float sum of the data that are
    not finite, in their order; [None] when all the data are finite. *)
Fixpoint special_total (total : option pyfloat) (data : list pyfloat)
  : option pyfloat :=
  match data with
  | [] => total
  | Finite _ :: rest => special_total total rest
  | x :: rest =>
      special_total (Some (match total with
                           | Some t => special_add t x
                           | None => x
                           end)) rest
  end.

(** [x.as_integer_ratio()] as a fraction, for a finite [x]. *)
Definition exact_ratio (x : pyfloat) : Q :=
  match x with
  | Finite q => q
  | _ => 0%Q
  end.

(** [statistics.mean]: on finite data the exact sum of the data divided by
    their number and rounded once; when some of the data are not finite,
    [total / n] for their float sum [total], which is [total]. *)
Definition mean (data : list pyfloat) : result pyfloat :=
  match data with
  | [] => Raise StatisticsError
  | _ =>
      match special_total None data with
      | Some total => Ret total
      | None =>
          Ret (Finite (float_of_fraction
                         (fold_right Qplus 0%Q (map exact_ratio data)
                          / inject_Z (Z.of_nat (length data)))%Q))
      end
  end.

(** [{server: mean(data_points) for server, data_points in metrics.items()}] *)
Fixpoint mean_metrics (metrics : Dict.t (list pyfloat))
  : result (Dict.t pyfloat) :=
  match metrics with
  | [] => Ret []
  | (server, data_points) :: rest =>
      m <- mean data_points ;;
      ms <- mean_metrics rest ;;
      Ret ((server, m) :: ms)
  end.

(** [min]: the running minimum is replaced by an item only when
    [item < minimum] holds, so that a leading [nan] stays and a later one is
    passed over. *)
Fixpoint min_from (cur : pyfloat) (xs : list pyfloat) : pyfloat :=
  match xs with
  | [] => cur
  | x :: xs' => min_from (if float_lt x cur then x else cur) xs'
  end.

Definition py_min (xs : list pyfloat) : result pyfloat :=
  match xs with
  | [] => Raise ValueError
  | x :: xs' => Ret (min_from x xs')
  end.

Definition select_server (r : nat) (metrics : Dict.t (list pyfloat))
           (g : Globals)
  : result Globals :=
  mean_metrics <- mean_metrics metrics ;;
  min_value <- py_min (Dict.values mean_metrics) ;;
  let all_matches :=
    filter (fun item => float_eq (snd item) min_value) mean_metrics in
  final_server <- choice r (Dict.keys all_matches) ;;
  Ret (set_turn_server g final_server).

(** The condition of the inner [while True] of [LoadBalancer.run]. *)
Definition waiting (g : Globals) : bool :=
  match turn_data g with
  | None => true
  | Some d =>
      match filter (fun data => match healthy data with None => true | _ => false end)
                   (Dict.values d) with
      | [] => false
      | _ => true
      end
  end.

(** One pass of the outer loop of [LoadBalancer.run], the wait being over. *)
Definition lb_run_cycle (r : nat) (resp : http_outcome) (g : Globals)
  : result Globals :=
  if String.eqb (algorithm config) "random" then random_healthy_server r g
  else
    d <- of_option AttributeError (turn_data g) ;;
    let healthy_servers :=
      map fst (filter (fun item => truth (healthy (snd item))) d) in
    match healthy_servers with
    | [] => random_server r g
    | [_] => Ret (set_turn_server g (String.concat "" healthy_servers))
    | _ =>
        query_result <- get_prometheus_metrics resp healthy_servers ;;
        match query_result with
        | QList [] => random_healthy_server r g
        | QList l =>
            metrics <- process_metrics l ;;
            match metrics with
            | [] => random_healthy_server r g
            | _ => select_server r metrics g
            end
        | _ => random_healthy_server r g
        end
    end.

(** *** The three threads *)

Record System : Type := {
  globals : Globals;
  hc_alive : bool;
  lb_alive : bool;
  web_alive : bool
}.

Definition with_globals (s : System) (g : Globals) : System :=
  {| globals := g; hc_alive := hc_alive s;
     lb_alive := lb_alive s; web_alive := web_alive s |}.

Definition hc_dead (s : System) : System :=
  {| globals := globals s; hc_alive := false;
     lb_alive := lb_alive s; web_alive := web_alive s |}.

Definition lb_dead (s : System) : System :=
  {| globals := globals s; hc_alive := hc_alive s;
     lb_alive := false; web_alive := web_alive s |}.

(** The module as loaded, the threads just started. *)
Definition start : System :=
  {| globals := {| turn_server := None; turn_data := None |};
     hc_alive := true; lb_alive := true; web_alive := true |}.

(** What the threads do, one scheduling step at a time. *)
Inductive event : Type :=
| HcStart                                            (* HealthCheck.run up to its loop *)
| HcProbe (server : string) (passed : bool) (r : nat) (* one probe, processed *)
| LbCycle (r : nat) (resp : http_outcome).           (* one pass of LoadBalancer.run *)

Definition step (s : System) (ev : event) : System :=
  match ev with
  | HcStart =>
      match turn_data (globals s) with
      | None =>
          if hc_alive s
          then with_globals s (set_turn_data (globals s) initial_turn_data)
          else s
      | Some _ => s
      end
  | HcProbe server passed r =>
      match turn_data (globals s) with
      | None => s
      | Some _ =>
          if hc_alive s && str_in server registry then
            match process_health_check server passed r (globals s) with
            | Ret g' => with_globals s g'
            | Raise _ => hc_dead s
            end
          else s
      end
  | LbCycle r resp =>
      if lb_alive s then
        if waiting (globals s) then s
        else match lb_run_cycle r resp (globals s) with
             | Ret g' => with_globals s g'
             | Raise _ => lb_dead s
             end
      else s
  end.

Definition exec (evs : list event) (s : System) : System :=
  fold_left step evs s.

(** [check_threads]: [polls] are the states seen at the successive polls; the
    answer is whether the function has returned by the end of them. *)
Fixpoint check_threads (polls : list System) : bool :=
  match polls with
  | [] => false
  | s :: rest =>
      if negb (forallb (fun alive => alive) [hc_alive s; lb_alive s; web_alive s])
      then true
      else check_threads rest
  end.

(** *** web_api *)

(** [get_turn_server]: the two fields of the body. *)
Definition get_turn_server (g : Globals)
  : option (Dict.t EndpointHealth) * option string :=
  (turn_data g, turn_server g).

(** [get_api_health]: the [health] field of the body and the status code. *)
Definition get_api_health (g : Globals) : string * Z :=
  if server_truth (turn_server g)
  then ("healthy", 200)
  else ("unhealthy", 500).

(** *** HealthCheck: one pass of probes *)

(** [_get_health_tcp], [connected] telling whether the [try] block ran to
    its end. *)
Definition _get_health_tcp (server : string) (connected : bool) (r : nat)
           (g : Globals) : result Globals :=
  if connected
  then process_health_check server true r g
  else process_health_check server false r g.

(** [main_tcp]: the probes of one pass, in the order in which they complete,
    each processed as a whole; the first exception ends the pass. *)
Fixpoint main_tcp (completions : list (string * bool * nat)) (g : Globals)
  : result Globals :=
  match completions with
  | [] => Ret g
  | (server, connected, r) :: rest =>
      g' <- _get_health_tcp server connected r g ;;
      main_tcp rest g'
  end.

End Program.

(** ** Vocabulary of the statements *)

(** A record whose status is determined: status [h], failure counter [c]. *)
Definition known (N : Z) (h : bool) (c : Z) : EndpointHealth :=
  {| initial := 0; success_th := N; failed_checks := Some c; healthy := Some h |}.

(** Consecutive probes of one endpoint, each with the draw its reactive check
    may use. *)
Fixpoint probes (config : Config) (server : string) (ps : list (bool * nat))
         (g : Globals) : result Globals :=
  match ps with
  | [] => Ret g
  | (passed, r) :: ps' =>
      g' <- process_health_check config server passed r g ;;
      probes config server ps' g'
  end.

(** The hysteresis rule applied to consecutive probe results of one record. *)
Fixpoint hysteresis_seq (e : EndpointHealth) (bs : list bool)
  : result EndpointHealth :=
  match bs with
  | [] => Ret e
  | b :: bs' => e' <- hysteresis e b ;; hysteresis_seq e' bs'
  end.

(** The outcome is a state in which [server] has status [h] and counter [c]. *)
Definition ends_with (server : string) (h : bool) (c : Z)
           (out : result Globals) : Prop :=
  exists g' d' e',
    out = Ret g' /\ turn_data g' = Some d' /\ Dict.get server d' = Some e' /\
    healthy e' = Some h /\ failed_checks e' = Some c.

(** No endpoint of the table is Unknown. *)
Definition determined (d : Dict.t EndpointHealth) : Prop :=
  Forall (fun item => healthy (snd item) <> None) d.

(** The records a run can produce: Unknown with no counter, Healthy with the
    counter below the threshold, Unhealthy with the counter above zero. *)
Definition damped (N : Z) (e : EndpointHealth) : Prop :=
  initial e = 0 /\ success_th e = N /\
  match healthy e, failed_checks e return Prop with
  | None, None => True
  | Some true, Some c => 0 <= c < N
  | Some false, Some c => 0 < c <= N
  | _, _ => False
  end.

(** A record as [HealthCheck.run] creates it and the rule keeps it: the
    counter is unset exactly while the status is. *)
Definition consistent (N : Z) (e : EndpointHealth) : Prop :=
  initial e = 0 /\ success_th e = N /\
  (healthy e = None <-> failed_checks e = None).

(** The table has the registry's addresses as keys and records satisfying [P]. *)
Definition table_ok (config : Config) (P : EndpointHealth -> Prop)
           (d : Dict.t EndpointHealth) : Prop :=
  (forall k, In k (Dict.keys d) <-> In k (registry config)) /\
  Forall (fun item => P (snd item)) d.

(** What holds of the three threads' shared state throughout a run. *)
Definition sys_inv (config : Config) (P : EndpointHealth -> Prop)
           (s : System) : Prop :=
  hc_alive s = true /\
  (forall d, turn_data (globals s) = Some d -> table_ok config P d) /\
  (forall a, turn_server (globals s) = Some a ->
             In a (registry config) /\
             exists d, turn_data (globals s) = Some d /\ determined d).

(** A label dict has one value per label. *)
Definition series_wf (s : Series) : Prop := NoDup (Dict.keys (metric s)).

Definition outcome_wf (resp : http_outcome) : Prop :=
  match resp with
  | ResponseResult l => Forall series_wf l
  | _ => True
  end.

Definition event_wf (ev : event) : Prop :=
  match ev with
  | LbCycle _ resp => outcome_wf resp
  | _ => True
  end.

(** The two biconditionals of the data model, on one record. *)
Definition biconditionals (N : Z) (e : EndpointHealth) : Prop :=
  (failed_checks e = Some 0 <-> healthy e = Some true) /\
  (failed_checks e = Some N <-> healthy e = Some false).

(** Their one-way reading, with what the status says of the counter. *)
Definition implications (N : Z) (e : EndpointHealth) : Prop :=
  (failed_checks e = Some 0 -> healthy e = Some true) /\
  (failed_checks e = Some N -> healthy e = Some false) /\
  (healthy e = Some true ->
   exists c, failed_checks e = Some c /\ 0 <= c < N) /\
  (healthy e = Some false ->
   exists c, failed_checks e = Some c /\ 0 < c <= N).

(** The states in which a run performs the reactive check: the globals of a
    state of the run, the table just updated for one probed endpoint. *)
Definition check_site (config : Config) (float_of_fraction : Q -> Q)
           (g1 : Globals) : Prop :=
  exists evs server passed d e e',
    Forall event_wf evs /\
    turn_data (globals (exec config float_of_fraction evs start)) = Some d /\
    In server (registry config) /\
    Dict.get server d = Some e /\ hysteresis e passed = Ret e' /\
    g1 = set_turn_data (globals (exec config float_of_fraction evs start))
                       (Dict.set server e' d).

(** At least one endpoint is Unhealthy, not all are. *)
Definition partial_outage (d : Dict.t EndpointHealth) : Prop :=
  (1 <= length (unhealthy_marks d) < length d)%nat.

(** The conditions of the reactive fast path. *)
Definition fast_path_conditions (g : Globals) (d : Dict.t EndpointHealth)
  : Prop :=
  determined d /\
  server_truth (turn_server g) = true /\
  partial_outage d /\
  (forall a, turn_server g = Some a -> ~ In a (healthy_servers d)).

(** No label value of the series is an address of the registry. *)
Definition unrecognized (config : Config) (s : Series) : Prop :=
  find_label config (metric s) = None.

(** The samples of a series, as [process_metrics] reads them. *)
Definition samples (s : Series) : list pyfloat := map snd (values s).

(** The endpoint [process_metrics] attributes a series to. *)
Definition endpoint_of (config : Config) (s : Series) : option string :=
  match find_label config (metric s) with
  | Some label => Dict.get label (metric s)
  | None => None
  end.

(** The series has a label, not the empty one, whose value is an address of
    the registry. *)
Definition recognized (config : Config) (s : Series) : Prop :=
  server_truth (find_label config (metric s)) = true.


(** The arithmetic mean of finite data, as a rational. *)
Definition arithmetic_mean (data : list pyfloat) : Q :=
  (fold_right Qplus 0%Q (map exact_ratio data)
   / inject_Z (Z.of_nat (length data)))%Q.

(** The value of [statistics.mean] on non-empty data: the arithmetic mean
    rounded to a float when the data are finite, and otherwise [inf], [-inf]
    or [nan], as the float sum of the data that are not finite. *)
Definition mean_value (float_of_fraction : Q -> Q) (data : list pyfloat)
  : pyfloat :=
  match special_total None data with
  | Some total => total
  | None => Finite (float_of_fraction (arithmetic_mean data))
  end.


(** The addresses probed in one pass, in completion order. *)
Definition servers_of (completions : list (string * bool * nat)) : list string :=
  map (fun c => fst (fst c)) completions.

(** The series has at least [durationMinutes] samples. *)
Definition sufficient (config : Config) (s : Series) : Prop :=
  durationMinutes config <= Z.of_nat (length (samples s)).

(** One of the three threads is dead. *)
Definition dead (s : System) : Prop :=
  hc_alive s = false \/ lb_alive s = false \/ web_alive s = false.

(** The table part of the invariant, which needs nothing of the events. *)
Definition table_inv_holds (config : Config) (s : System) : Prop :=
  hc_alive s = true /\
  forall d, turn_data (globals s) = Some d ->
            table_ok config (consistent (successThreshold config)) d /\
            Dict.keys d = Dict.keys (initial_turn_data config).

(** ** Concrete instances *)

(** Two relays, threshold 3, metric-driven selection over 2 minutes. *)
Definition example_config : Config :=
  {| addressMapping := [("relay1", "10.0.0.1"); ("relay2", "10.0.0.2")];
     successThreshold := 3;
     algorithm := "metrics";
     durationMinutes := 2 |}.

(** The identity in place of the rounding to a float. *)
Definition exact (q : Q) : Q := q.

(** Both relays Healthy, the first one active. *)
Definition both_healthy : Globals :=
  {| turn_server := Some "10.0.0.1";
     turn_data := Some [("10.0.0.1", known 3 true 0); ("10.0.0.2", known 3 true 0)] |}.

(** Both relays Unhealthy, the first one active. *)
Definition both_unhealthy : Globals :=
  {| turn_server := Some "10.0.0.1";
     turn_data := Some [("10.0.0.1", known 3 false 3); ("10.0.0.2", known 3 false 3)] |}.

(** A series labelled with an address that is not in the registry. *)
Definition stray_series : Series :=
  {| metric := [("instance", "10.9.9.9")];
     values := [(0%Q, Finite 1); (60%Q, Finite 1)] |}.

(** A run in which both relays are probed Healthy, the first cycle falls back
    on the first relay, and that relay then fails two probes. *)
Definition failover_run : list event :=
  [HcStart;
   HcProbe "10.0.0.1" true 0; HcProbe "10.0.0.2" true 0;
   LbCycle 0 RequestFailed;
   HcProbe "10.0.0.1" false 0; HcProbe "10.0.0.1" false 0].

(** The table after [failover_run]. *)
Definition failover_table : Dict.t EndpointHealth :=
  [("10.0.0.1", known 3 true 2); ("10.0.0.2", known 3 true 0)].

(** The state in which the check runs when the first relay fails once more. *)
Definition failover_site : Globals :=
  {| turn_server := Some "10.0.0.1";
     turn_data := Some [("10.0.0.1", known 3 false 3);
                        ("10.0.0.2", known 3 true 0)] |}.


(** The means 10, 5 and 5 of the selection example. *)
Definition tie_metrics : Dict.t (list pyfloat) :=
  [("A", [Finite 10; Finite 10]); ("B", [Finite 5; Finite 5]); ("C", [Finite 4; Finite 6])].

(** A series of the first relay with enough samples. *)
Definition full_series : Series :=
  {| metric := [("job", "coturn"); ("instance", "10.0.0.1")];
     values := [(0%Q, Finite 7); (60%Q, Finite 9)] |}.

(** A series of the second relay with one sample only. *)
Definition short_series : Series :=
  {| metric := [("job", "coturn"); ("instance", "10.0.0.2")];
     values := [(60%Q, Finite 1)] |}.

(** Three relays, threshold 2, metric-driven selection over 2 minutes. *)
Definition three_relays : Config :=
  {| addressMapping := [("relay1", "10.0.0.1"); ("relay2", "10.0.0.2");
                        ("relay3", "10.0.0.3")];
     successThreshold := 2;
     algorithm := "metrics";
     durationMinutes := 2 |}.

(** The third relay Unhealthy, the first one active. *)
Definition third_down : Globals :=
  {| turn_server := Some "10.0.0.1";
     turn_data := Some [("10.0.0.1", known 2 true 0);
                        ("10.0.0.2", known 2 true 0);
                        ("10.0.0.3", known 2 false 2)] |}.

(** A series of the third relay with enough samples. *)
Definition third_series : Series :=
  {| metric := [("instance", "10.0.0.3")];
     values := [(0%Q, Finite 2); (60%Q, Finite 2)] |}.

(** The globals once [HealthCheck.run] has built the table. *)
Definition table_built : Globals :=
  {| turn_server := None;
     turn_data := Some (initial_turn_data example_config) |}.

(** The example configuration with threshold 0. *)
Definition zero_threshold : Config :=
  {| addressMapping := addressMapping example_config;
     successThreshold := 0;
     algorithm := algorithm example_config;
     durationMinutes := durationMinutes example_config |}.

(** The example configuration with no relay. *)
Definition no_relay : Config :=
  {| addressMapping := [];
     successThreshold := 3;
     algorithm := "random";
     durationMinutes := 2 |}.

(** Two more series of the first relay: three samples, and one sample. *)
Definition earlier_series : Series :=
  {| metric := [("instance", "10.0.0.1")];
     values := [(0%Q, Finite 1); (60%Q, Finite 1); (120%Q, Finite 1)] |}.

Definition later_short_series : Series :=
  {| metric := [("instance", "10.0.0.1")];
     values := [(180%Q, Finite 3)] |}.

(** Both relays Healthy, the second one active. *)
Definition second_active : Globals :=
  {| turn_server := Some "10.0.0.2";
     turn_data := Some [("10.0.0.1", known 3 true 0); ("10.0.0.2", known 3 true 0)] |}.

(** The third relay Unhealthy and active. *)
Definition third_active : Globals :=
  {| turn_server := Some "10.0.0.3";
     turn_data := Some [("10.0.0.1", known 2 true 0);
                        ("10.0.0.2", known 2 true 0);
                        ("10.0.0.3", known 2 false 2)] |}.

(** A series of the first relay with enough samples, one of them [nan], and
    a series of the second relay with enough samples. *)
Definition nan_series : Series :=
  {| metric := [("instance", "10.0.0.1")];
     values := [(0%Q, Finite 4); (60%Q, NaN)] |}.

Definition full_second_series : Series :=
  {| metric := [("instance", "10.0.0.2")];
     values := [(0%Q, Finite 2); (60%Q, Finite 3)] |}.

(** The example configuration in random mode. *)
Definition random_mode : Config :=
  {| addressMapping := addressMapping example_config;
     successThreshold := successThreshold example_config;
     algorithm := "random";
     durationMinutes := durationMinutes example_config |}.

(** * Properties *)

(** ** Dicts and [choice] *)

Lemma bind_ret {A B : Type} (m : result A) (k : A -> result B) (b : B) :
  bind m k = Ret b -> exists a, m = Ret a /\ k a = Ret b.
Proof.
  destruct m as [a|e]; simpl; intros H; [exists a; auto | discriminate].
Qed.

Lemma get_set_same {V : Type} (k : string) (v : V) (d : Dict.t V) :
  Dict.get k (Dict.set k v d) = Some v.
Proof.
  induction d as [|[k' v'] d IH]; simpl.
  - now rewrite String.eqb_refl.
  - destruct (String.eqb k k') eqn:E; simpl; rewrite E; auto.
Qed.

Lemma get_set_other {V : Type} (k k0 : string) (v : V) (d : Dict.t V) :
  k0 <> k -> Dict.get k0 (Dict.set k v d) = Dict.get k0 d.
Proof.
  intros Hne. induction d as [|[k' v'] d IH]; simpl.
  - destruct (String.eqb_spec k0 k); congruence.
  - destruct (String.eqb_spec k k'); simpl.
    + subst k'. destruct (String.eqb_spec k0 k); congruence.
    + destruct (String.eqb_spec k0 k'); auto.
Qed.

Lemma get_In {V : Type} (k : string) (v : V) (d : Dict.t V) :
  Dict.get k d = Some v -> In (k, v) d.
Proof.
  induction d as [|[k' v'] d IH]; simpl; [discriminate|].
  destruct (String.eqb_spec k k'); intros H.
  - left. congruence.
  - right. auto.
Qed.

Lemma In_keys_get {V : Type} (k : string) (d : Dict.t V) :
  In k (Dict.keys d) -> exists v, Dict.get k d = Some v.
Proof.
  induction d as [|[k' v'] d IH]; simpl; [tauto|].
  intros [H|H]; destruct (String.eqb_spec k k'); eauto; congruence.
Qed.

Lemma keys_set {V : Type} (k : string) (v : V) (d : Dict.t V) :
  forall x, In x (Dict.keys (Dict.set k v d)) <-> x = k \/ In x (Dict.keys d).
Proof.
  intros x. induction d as [|[k' v'] d IH]; simpl.
  - intuition.
  - destruct (String.eqb_spec k k'); simpl.
    + subst k'. intuition.
    + rewrite IH. intuition.
Qed.

Lemma keys_set_present {V : Type} (k : string) (v v0 : V) (d : Dict.t V) :
  Dict.get k d = Some v0 -> Dict.keys (Dict.set k v d) = Dict.keys d.
Proof.
  induction d as [|[k' v'] d IH]; simpl; [discriminate|].
  destruct (String.eqb_spec k k'); simpl; intros H; auto.
  f_equal. auto.
Qed.

Lemma Forall_set {V : Type} (P : string * V -> Prop) (k : string) (v : V)
      (d : Dict.t V) :
  Forall P d -> P (k, v) -> Forall P (Dict.set k v d).
Proof.
  intros Hd Hk. induction Hd as [|[k' v'] d Hx Hd IH]; simpl.
  - auto.
  - destruct (String.eqb_spec k k'); [subst k'|]; auto.
Qed.

Lemma In_set {V : Type} (k : string) (v : V) (d : Dict.t V) (x : string * V) :
  In x (Dict.set k v d) -> x = (k, v) \/ In x d.
Proof.
  induction d as [|[k' v'] d IH]; simpl.
  - intros [H|[]]. left. now symmetry.
  - destruct (String.eqb_spec k k'); simpl.
    + subst k'. intros [H|H]; [left; now symmetry | right; now right].
    + intros [H|H]; [right; now left |].
      destruct (IH H); [now left | right; now right].
Qed.

Lemma str_in_In (x : string) (xs : list string) :
  str_in x xs = true <-> In x xs.
Proof.
  unfold str_in. rewrite existsb_exists. split.
  - intros [y [Hy E]]. apply String.eqb_eq in E. now subst.
  - intros H. exists x. split; auto. apply String.eqb_refl.
Qed.

Lemma choice_In {A : Type} (r : nat) (seq : list A) (x : A) :
  choice r seq = Ret x -> In x seq.
Proof.
  unfold choice. destruct (nth_error seq (r mod length seq)) eqn:E; simpl.
  - intros H. inversion H; subst. eapply nth_error_In; eauto.
  - discriminate.
Qed.

Lemma choice_total {A : Type} (r : nat) (seq : list A) :
  seq <> [] -> exists x, choice r seq = Ret x /\ In x seq.
Proof.
  intros Hne. unfold choice.
  destruct (nth_error seq (r mod length seq)) eqn:E.
  - exists a. split; auto. eapply nth_error_In; eauto.
  - apply nth_error_None in E.
    assert (length seq <> 0)%nat by (destruct seq; simpl; congruence).
    pose proof (Nat.mod_upper_bound r (length seq) H). lia.
Qed.

Lemma choice_nil {A : Type} (r : nat) : @choice A r [] = Raise IndexError.
Proof. unfold choice. simpl length. destruct (r mod 0)%nat; reflexivity. Qed.

(** ** The hysteresis rule on one record *)

Ltac zcase :=
  match goal with
  | |- context [Z.eqb ?a ?b] => destruct (Z.eqb_spec a b)
  | |- context [Z.ltb ?a ?b] => destruct (Z.ltb_spec a b)
  | |- context [Z.gtb ?a ?b] => rewrite (Z.gtb_ltb a b)
  end.

Ltac zcases :=
  repeat (simpl; zcase); simpl; try reflexivity; try lia; try congruence;
  try (repeat f_equal; lia).

Ltac hyst := unfold hysteresis, update_failed_checks, update_healthy, known; simpl; zcases.

Lemma first_pass (N : Z) :
  hysteresis {| initial := 0; success_th := N; failed_checks := None; healthy := None |} true
  = Ret (known N true 0).
Proof. hyst. Qed.

Lemma first_fail (N : Z) :
  0 < N ->
  hysteresis {| initial := 0; success_th := N; failed_checks := None; healthy := None |} false
  = Ret (known N false N).
Proof. intros HN. hyst. Qed.

Lemma fail_healthy (N c : Z) :
  0 <= c -> c + 1 < N ->
  hysteresis (known N true c) false = Ret (known N true (c + 1)).
Proof. intros H1 H2. hyst. Qed.

Lemma fail_healthy_last (N c : Z) :
  0 <= c -> c + 1 = N ->
  hysteresis (known N true c) false = Ret (known N false N).
Proof. intros H1 H2. subst N. hyst. Qed.

Lemma pass_healthy (N c : Z) :
  0 <= c < N ->
  hysteresis (known N true c) true = Ret (known N true 0).
Proof. intros H1. hyst. Qed.

Lemma pass_unhealthy (N c : Z) :
  1 < c <= N ->
  hysteresis (known N false c) true = Ret (known N false (c - 1)).
Proof. intros H1. hyst. Qed.

Lemma pass_unhealthy_last (N : Z) :
  1 <= N ->
  hysteresis (known N false 1) true = Ret (known N true 0).
Proof. intros H1. hyst. Qed.

Lemma fail_unhealthy (N c : Z) :
  0 < c <= N ->
  hysteresis (known N false c) false = Ret (known N false N).
Proof. intros H1. hyst. Qed.

Lemma known_eta (e : EndpointHealth) (h : bool) (c : Z) :
  initial e = 0 -> healthy e = Some h -> failed_checks e = Some c ->
  e = known (success_th e) h c.
Proof. destruct e; simpl; intros; subst; reflexivity. Qed.

Lemma hysteresis_seq_app (e : EndpointHealth) (bs1 bs2 : list bool) :
  hysteresis_seq e (bs1 ++ bs2) =
  (e' <- hysteresis_seq e bs1 ;; hysteresis_seq e' bs2).
Proof.
  revert e. induction bs1 as [|b bs1 IH]; intros e; simpl; auto.
  destruct (hysteresis e b); simpl; auto.
Qed.

Lemma fails_from_healthy (N : Z) (k : nat) :
  forall c, 0 <= c < N -> c + Z.of_nat k <= N ->
  hysteresis_seq (known N true c) (repeat false k) =
  Ret (if c + Z.of_nat k <? N then known N true (c + Z.of_nat k)
       else known N false N).
Proof.
  induction k as [|k IH]; intros c Hc Hk.
  - simpl. replace (c + 0) with c by lia.
    destruct (Z.ltb_spec c N); [reflexivity | lia].
  - cbn [repeat hysteresis_seq].
    destruct (Z.eq_dec (c + 1) N) as [E|E].
    + rewrite fail_healthy_last by lia. simpl.
      assert (k = 0%nat) by lia. subst k. simpl.
      destruct (Z.ltb_spec (c + 1) N); [lia | reflexivity].
    + rewrite fail_healthy by lia. simpl.
      rewrite IH by lia.
      replace (c + 1 + Z.of_nat k) with (c + Z.of_nat (S k)) by lia.
      reflexivity.
Qed.

Lemma passes_from_unhealthy (N : Z) (k : nat) :
  forall c, 0 < c <= N -> Z.of_nat k <= c ->
  hysteresis_seq (known N false c) (repeat true k) =
  Ret (if Z.of_nat k <? c then known N false (c - Z.of_nat k)
       else known N true 0).
Proof.
  induction k as [|k IH]; intros c Hc Hk.
  - simpl. replace (c - 0) with c by lia.
    destruct (Z.ltb_spec 0 c); [reflexivity | lia].
  - cbn [repeat hysteresis_seq].
    destruct (Z.eq_dec c 1) as [E|E].
    + subst c. rewrite pass_unhealthy_last by lia. simpl.
      assert (k = 0%nat) by lia. subst k. simpl. reflexivity.
    + rewrite pass_unhealthy by lia. cbn [bind].
      rewrite IH by lia.
      replace (c - 1 - Z.of_nat k) with (c - Z.of_nat (S k)) by lia.
      destruct (Z.ltb_spec (Z.of_nat k) (c - 1));
        destruct (Z.ltb_spec (Z.of_nat (S k)) c); try lia; reflexivity.
Qed.

Lemma map_fst_pair (b : bool) (rs : list nat) :
  map fst (map (pair b) rs) = repeat b (length rs).
Proof. induction rs; simpl; congruence. Qed.

(** ** The two fallbacks and the reactive check *)

Section Globals_facts.

Variable config : Config.

Lemma random_server_total (r : nat) (g : Globals) :
  registry config <> [] ->
  exists a, random_server config r g = Ret (set_turn_server g a) /\
            In a (registry config).
Proof.
  intros Hne. unfold random_server.
  destruct (choice_total r _ Hne) as [a [Ha Hin]].
  exists a. rewrite Ha. simpl. auto.
Qed.

Lemma random_server_inv (r : nat) (g g' : Globals) :
  random_server config r g = Ret g' ->
  exists a, g' = set_turn_server g a /\ In a (registry config).
Proof.
  unfold random_server. intros H.
  apply bind_ret in H. destruct H as [a [Ha H]].
  inversion H; subst. exists a. split; auto. eapply choice_In; eauto.
Qed.

Lemma random_healthy_server_inv (r : nat) (g g' : Globals)
      (d : Dict.t EndpointHealth) :
  turn_data g = Some d ->
  random_healthy_server config r g = Ret g' ->
  exists a, g' = set_turn_server g a /\
            (healthy_servers d <> [] -> In a (healthy_servers d)) /\
            (healthy_servers d = [] -> In a (registry config)).
Proof.
  intros Hd. unfold random_healthy_server. rewrite Hd. simpl.
  destruct (healthy_servers d) as [|h hs] eqn:E.
  - intros H. apply random_server_inv in H. destruct H as [a [-> Hin]].
    exists a. repeat split; auto. congruence.
  - intros H. apply bind_ret in H. destruct H as [a [Ha H]].
    inversion H; subst. exists a. repeat split.
    + intros _. eapply choice_In; eauto.
    + discriminate.
Qed.

Lemma random_healthy_server_total (r : nat) (g : Globals)
      (d : Dict.t EndpointHealth) :
  turn_data g = Some d ->
  registry config <> [] \/ healthy_servers d <> [] ->
  exists g', random_healthy_server config r g = Ret g'.
Proof.
  intros Hd Hne. unfold random_healthy_server. rewrite Hd. simpl.
  destruct (healthy_servers d) as [|h hs] eqn:E.
  - destruct Hne as [Hne|Hne]; [|congruence].
    destruct (random_server_total r g Hne) as [a [Ha _]]. eauto.
  - assert (Hn : h :: hs <> []) by discriminate.
    destruct (choice_total r _ Hn) as [a [Ha _]]. rewrite Ha. simpl. eauto.
Qed.

Lemma random_healthy_server_draw (r : nat) (g : Globals)
      (d : Dict.t EndpointHealth) :
  turn_data g = Some d -> healthy_servers d <> [] ->
  exists a, choice r (healthy_servers d) = Ret a /\
            In a (healthy_servers d) /\
            random_healthy_server config r g = Ret (set_turn_server g a).
Proof.
  intros Hd Hne. unfold random_healthy_server. rewrite Hd. simpl.
  destruct (choice_total r _ Hne) as [a [Ha Hin]].
  exists a. split; [assumption|]. split; [assumption|].
  destruct (healthy_servers d) as [|h hs]; [congruence|].
  rewrite Ha. reflexivity.
Qed.

Lemma str_in_healthy_nonempty (a : string) (d : Dict.t EndpointHealth) :
  str_in a (healthy_servers d) = true -> healthy_servers d <> [].
Proof.
  intros H. apply str_in_In in H. destruct (healthy_servers d); [destruct H | discriminate].
Qed.

Lemma check_current_server_inv (r : nat) (g g' : Globals) :
  check_current_server config r g = Ret g' ->
  g' = g \/ random_healthy_server config r g = Ret g'.
Proof.
  unfold check_current_server.
  destruct (server_truth (turn_server g)); [|intros H; inversion H; auto].
  destruct (turn_data g) as [d|]; simpl; [|discriminate].
  destruct (in_range _ _ _); [|intros H; inversion H; auto].
  destruct (turn_server g) as [a|]; [|intros H; inversion H; auto].
  destruct (negb _); [auto | intros H; inversion H; auto].
Qed.

Lemma check_current_server_data (r : nat) (g g' : Globals) :
  check_current_server config r g = Ret g' -> turn_data g' = turn_data g.
Proof.
  intros H. destruct (check_current_server_inv _ _ _ H) as [->|H']; auto.
  destruct (turn_data g) as [d|] eqn:Hd.
  - destruct (random_healthy_server_inv _ _ _ _ Hd H') as [a [-> _]].
    simpl. auto.
  - unfold random_healthy_server in H'. rewrite Hd in H'. discriminate.
Qed.

Lemma check_current_server_total (r : nat) (g : Globals)
      (d : Dict.t EndpointHealth) :
  turn_data g = Some d -> registry config <> [] ->
  exists g', check_current_server config r g = Ret g'.
Proof.
  intros Hd Hne. unfold check_current_server.
  destruct (server_truth (turn_server g)); [|eauto].
  rewrite Hd. simpl.
  destruct (in_range _ _ _); [|eauto].
  destruct (turn_server g) as [a|]; [|eauto].
  destruct (negb _); [|eauto].
  eapply random_healthy_server_total; eauto.
Qed.

Lemma process_health_check_entry (server : string) (b : bool) (r : nat)
      (g : Globals) (d : Dict.t EndpointHealth) (e e' : EndpointHealth) :
  registry config <> [] ->
  turn_data g = Some d -> Dict.get server d = Some e ->
  hysteresis e b = Ret e' ->
  exists g', process_health_check config server b r g = Ret g' /\
             turn_data g' = Some (Dict.set server e' d).
Proof.
  intros Hne Hd He Hh. unfold process_health_check.
  rewrite Hd. simpl. rewrite He. simpl. rewrite Hh. simpl.
  destruct (check_current_server_total r (set_turn_data g (Dict.set server e' d))
              (Dict.set server e' d) eq_refl Hne) as [g' Hg'].
  exists g'. split; auto.
  apply check_current_server_data in Hg'. rewrite Hg'. reflexivity.
Qed.

Lemma probes_entry (server : string) (ps : list (bool * nat)) :
  registry config <> [] ->
  forall (g : Globals) (d : Dict.t EndpointHealth) (e e' : EndpointHealth),
  turn_data g = Some d -> Dict.get server d = Some e ->
  hysteresis_seq e (map fst ps) = Ret e' ->
  exists g' d', probes config server ps g = Ret g' /\
                turn_data g' = Some d' /\ Dict.get server d' = Some e'.
Proof.
  intros Hne. induction ps as [|[b r] ps IH]; intros g d e e' Hd He Hs.
  - simpl in *. inversion Hs; subst. eauto.
  - simpl in Hs. apply bind_ret in Hs. destruct Hs as [e1 [H1 Hs]].
    destruct (process_health_check_entry server b r g d e e1 Hne Hd He H1)
      as [g1 [Hg1 Hd1]].
    simpl. rewrite Hg1. simpl.
    eapply IH; eauto. apply get_set_same.
Qed.

End Globals_facts.

(** ** Hysteresis *)

Lemma ends_with_seq (config : Config) (server : string) (ps : list (bool * nat))
      (g : Globals) (d : Dict.t EndpointHealth) (e : EndpointHealth)
      (N : Z) (h : bool) (c : Z) :
  registry config <> [] ->
  turn_data g = Some d -> Dict.get server d = Some e ->
  hysteresis_seq e (map fst ps) = Ret (known N h c) ->
  ends_with server h c (probes config server ps g).
Proof.
  intros Hne Hd He Hs.
  destruct (probes_entry config server ps Hne g d e _ Hd He Hs)
    as [g' [d' [H1 [H2 H3]]]].
  exists g', d', (known N h c). auto.
Qed.

Lemma In_nonempty {A : Type} (x : A) (l : list A) : In x l -> l <> [].
Proof. destruct l; simpl; [tauto | discriminate]. Qed.

(** C1. With a positive threshold N, an endpoint that is Healthy with counter 0
    is Unhealthy after exactly N consecutive failed probes and still Healthy
    after fewer, and one success after fewer than N failures leaves it Healthy
    with counter 0; an endpoint that is Unhealthy with counter N is Healthy
    after exactly N consecutive successes and still Unhealthy after fewer, and
    one failure after fewer than N successes puts the counter back to N, the
    status still Unhealthy. *)
Theorem hysteresis_exactness (config : Config) (server : string) (g : Globals)
        (d : Dict.t EndpointHealth) (e : EndpointHealth) :
  0 < successThreshold config ->
  In server (registry config) ->
  turn_data g = Some d -> Dict.get server d = Some e ->
  initial e = 0 -> success_th e = successThreshold config ->
  let N := successThreshold config in
  let run := fun ps => probes config server ps g in
  (healthy e = Some true -> failed_checks e = Some 0 ->
   (forall rs, Z.of_nat (length rs) = N ->
               ends_with server false N (run (map (pair false) rs))) /\
   (forall rs, Z.of_nat (length rs) < N ->
               ends_with server true (Z.of_nat (length rs))
                         (run (map (pair false) rs))) /\
   (forall rs r, Z.of_nat (length rs) < N ->
                 ends_with server true 0
                           (run (map (pair false) rs ++ [(true, r)]))))
  /\
  (healthy e = Some false -> failed_checks e = Some N ->
   (forall rs, Z.of_nat (length rs) = N ->
               ends_with server true 0 (run (map (pair true) rs))) /\
   (forall rs, Z.of_nat (length rs) < N ->
               ends_with server false (N - Z.of_nat (length rs))
                         (run (map (pair true) rs))) /\
   (forall rs r, Z.of_nat (length rs) < N ->
                 ends_with server false N
                           (run (map (pair true) rs ++ [(false, r)])))).
Proof.
  intros HN Hin Hd He Hi Hth N run.
  pose proof (In_nonempty _ _ Hin) as Hne.
  split; intros Hh Hc.
  - pose proof (known_eta e true 0 Hi Hh Hc) as Ee.
    rewrite Hth in Ee. fold N in Ee.
    repeat split.
    + intros rs Hlen. unfold run.
      eapply ends_with_seq with (N := N); eauto.
      rewrite map_fst_pair, Ee, fails_from_healthy by lia.
      destruct (Z.ltb_spec (0 + Z.of_nat (length rs)) N); [lia | reflexivity].
    + intros rs Hlen. unfold run.
      eapply ends_with_seq with (N := N); eauto.
      rewrite map_fst_pair, Ee, fails_from_healthy by lia.
      destruct (Z.ltb_spec (0 + Z.of_nat (length rs)) N); [reflexivity | lia].
    + intros rs r Hlen. unfold run.
      eapply ends_with_seq with (N := N); eauto.
      rewrite map_app, map_fst_pair, hysteresis_seq_app, Ee,
        fails_from_healthy by lia.
      destruct (Z.ltb_spec (0 + Z.of_nat (length rs)) N); [|lia].
      cbn [bind map fst hysteresis_seq].
      rewrite pass_healthy by lia. reflexivity.
  - pose proof (known_eta e false N Hi Hh Hc) as Ee.
    rewrite Hth in Ee. fold N in Ee.
    repeat split.
    + intros rs Hlen. unfold run.
      eapply ends_with_seq with (N := N); eauto.
      rewrite map_fst_pair, Ee, passes_from_unhealthy by lia.
      destruct (Z.ltb_spec (Z.of_nat (length rs)) N); [lia | reflexivity].
    + intros rs Hlen. unfold run.
      eapply ends_with_seq with (N := N); eauto.
      rewrite map_fst_pair, Ee, passes_from_unhealthy by lia.
      destruct (Z.ltb_spec (Z.of_nat (length rs)) N); [reflexivity | lia].
    + intros rs r Hlen. unfold run.
      eapply ends_with_seq with (N := N); eauto.
      rewrite map_app, map_fst_pair, hysteresis_seq_app, Ee,
        passes_from_unhealthy by lia.
      destruct (Z.ltb_spec (Z.of_nat (length rs)) N); [|lia].
      cbn [bind map fst hysteresis_seq].
      rewrite fail_unhealthy by lia. reflexivity.
Qed.

(** ** Metrics: the keys of the maps *)

Section Metrics_keys.

Variable config : Config.
Variable float_of_fraction : Q -> Q.

Lemma find_label_In (items : Dict.t string) (label : string) :
  find_label config items = Some label -> In label (Dict.keys items).
Proof.
  induction items as [|[l0 v0] items IH]; simpl; [discriminate|].
  destruct (str_in v0 (registry config)).
  - intros H. inversion H. auto.
  - auto.
Qed.

Lemma find_label_get (items : Dict.t string) (label v : string) :
  NoDup (Dict.keys items) ->
  find_label config items = Some label -> Dict.get label items = Some v ->
  In v (registry config).
Proof.
  induction items as [|[l0 v0] items IH]; simpl; [discriminate|].
  intros Hnd Hf Hg. inversion Hnd as [|? ? Hnot Hnd']; subst.
  destruct (str_in v0 (registry config)) eqn:E.
  - inversion Hf; subst. rewrite String.eqb_refl in Hg.
    inversion Hg; subst. now apply str_in_In.
  - destruct (String.eqb_spec label l0).
    + subst l0. apply find_label_In in Hf. contradiction.
    + auto.
Qed.

Lemma find_label_get_some (items : Dict.t string) (label : string) :
  find_label config items = Some label ->
  exists v, Dict.get label items = Some v.
Proof.
  intros H. apply In_keys_get. now apply find_label_In.
Qed.

Lemma process_metrics_from_keys (l : list Series) :
  Forall series_wf l ->
  forall acc m,
  (forall k, In k (Dict.keys acc) -> In k (registry config)) ->
  process_metrics_from config acc l = Ret m ->
  forall k, In k (Dict.keys m) -> In k (registry config).
Proof.
  induction 1 as [|s l Hs Hl IH]; intros acc m Hacc; simpl.
  - intros H. inversion H; subst. auto.
  - destruct (find_label config (metric s)) as [label|] eqn:Ef; simpl;
      [|discriminate].
    destruct (negb (String.eqb label "")); simpl; [|discriminate].
    destruct (Z.of_nat _ <? _).
    + apply IH; auto.
    + destruct (Dict.get label (metric s)) as [server|] eqn:Eg; simpl;
        [|discriminate].
      apply IH. intros k Hk. apply keys_set in Hk. destruct Hk as [->|Hk]; auto.
      eapply find_label_get; eauto.
Qed.

Lemma process_metrics_keys (l : list Series) (m : Dict.t (list pyfloat)) :
  Forall series_wf l -> process_metrics config l = Ret m ->
  forall k, In k (Dict.keys m) -> In k (registry config).
Proof.
  intros Hl H. eapply process_metrics_from_keys; eauto.
  simpl. tauto.
Qed.

Lemma mean_metrics_keys (metrics : Dict.t (list pyfloat)) (mm : Dict.t pyfloat) :
  mean_metrics float_of_fraction metrics = Ret mm ->
  Dict.keys mm = Dict.keys metrics.
Proof.
  revert mm. induction metrics as [|[server data] metrics IH]; intros mm; simpl.
  - intros H. inversion H. reflexivity.
  - intros H. apply bind_ret in H. destruct H as [m [Hm H]].
    apply bind_ret in H. destruct H as [ms [Hms H]].
    inversion H; subst. simpl. f_equal. auto.
Qed.

Lemma filter_keys_In {V : Type} (f : string * V -> bool) (d : Dict.t V)
      (k : string) :
  In k (Dict.keys (filter f d)) -> In k (Dict.keys d).
Proof.
  unfold Dict.keys. rewrite !in_map_iff. intros [x [Hx Hin]].
  apply filter_In in Hin. exists x. tauto.
Qed.

Lemma select_server_inv (r : nat) (metrics : Dict.t (list pyfloat)) (g g' : Globals) :
  select_server float_of_fraction r metrics g = Ret g' ->
  exists a, g' = set_turn_server g a /\ In a (Dict.keys metrics).
Proof.
  unfold select_server. intros H.
  apply bind_ret in H. destruct H as [mm [Hmm H]].
  apply bind_ret in H. destruct H as [mn [Hmn H]].
  apply bind_ret in H. destruct H as [a [Ha H]].
  inversion H; subst. exists a. split; auto.
  apply choice_In in Ha. apply filter_keys_In in Ha.
  now rewrite (mean_metrics_keys _ _ Hmm) in Ha.
Qed.

End Metrics_keys.

(** ** One pass of the selection loop *)

Section Cycle_facts.

Variable config : Config.
Variable float_of_fraction : Q -> Q.

Lemma healthy_servers_keys (d : Dict.t EndpointHealth) (k : string) :
  In k (healthy_servers d) -> In k (Dict.keys d).
Proof. apply filter_keys_In. Qed.

Lemma truth_is_True (h : option bool) : truth h = is_True h.
Proof. destruct h as [[|]|]; reflexivity. Qed.

(** The list the cycle builds with [if data['healthy']] is the list the
    fallback builds with [is True]. *)
Lemma cycle_healthy_servers (d : Dict.t EndpointHealth) :
  map fst (filter (fun item => truth (healthy (snd item))) d) = healthy_servers d.
Proof.
  unfold healthy_servers. f_equal. apply filter_ext.
  intros item. apply truth_is_True.
Qed.

Lemma lb_run_cycle_inv (r : nat) (resp : http_outcome) (g g' : Globals)
      (d : Dict.t EndpointHealth) :
  outcome_wf resp ->
  turn_data g = Some d ->
  (forall k, In k (Dict.keys d) -> In k (registry config)) ->
  lb_run_cycle config float_of_fraction r resp g = Ret g' ->
  exists a, g' = set_turn_server g a /\ In a (registry config).
Proof.
  intros Hwf Hd Hkeys.
  assert (Hrh : forall g1, random_healthy_server config r g = Ret g1 ->
                exists a, g1 = set_turn_server g a /\ In a (registry config)).
  { intros g1 H1. destruct (random_healthy_server_inv _ _ _ _ _ Hd H1)
      as [a [-> [Ha Hb]]].
    exists a. split; auto.
    destruct (healthy_servers d) eqn:E; [auto|].
    apply Hkeys. apply healthy_servers_keys. rewrite E. apply Ha. discriminate. }
  unfold lb_run_cycle.
  destruct (String.eqb (algorithm config) "random"); [apply Hrh|].
  rewrite Hd. simpl. rewrite cycle_healthy_servers.
  destruct (healthy_servers d) as [|h1 [|h2 hs]] eqn:E.
  - apply random_server_inv.
  - simpl. intros H. inversion H; subst. exists h1. split; auto.
    apply Hkeys. apply healthy_servers_keys. rewrite E. now left.
  - destruct resp as [| | |l]; simpl; try discriminate; try apply Hrh.
    destruct l as [|s l]; [apply Hrh|].
    intros H. apply bind_ret in H. destruct H as [m [Hm H]].
    destruct m as [|x m]; [now apply Hrh|].
    apply select_server_inv in H. destruct H as [a [-> Ha]].
    exists a. split; auto.
    eapply process_metrics_keys; eauto.
Qed.

Lemma waiting_false (g : Globals) :
  waiting g = false <-> exists d, turn_data g = Some d /\ determined d.
Proof.
  unfold waiting, determined. destruct (turn_data g) as [d|].
  - split.
    + intros H. exists d. split; auto.
      induction d as [|[k e] d IH]; simpl in *; [constructor|].
      destruct (healthy e) eqn:E; [|discriminate].
      constructor; [simpl; congruence | auto].
    + intros [d' [Hd' H]]. inversion Hd'; subst d'. clear Hd'.
      induction H as [|[k e] d Hx Hd IH]; simpl in *; auto.
      destruct (healthy e); [auto | congruence].
  - split; [discriminate | intros [d [H _]]; discriminate].
Qed.

Lemma determined_set (server : string) (e : EndpointHealth)
      (d : Dict.t EndpointHealth) :
  determined d -> healthy e <> None -> determined (Dict.set server e d).
Proof. intros Hd He. apply Forall_set; auto. Qed.

Lemma fold_set_keys {V : Type} (v : V) (l : list string) :
  forall (acc : Dict.t V) (k : string),
  In k (Dict.keys (fold_left (fun d server => Dict.set server v d) l acc)) <->
  In k (Dict.keys acc) \/ In k l.
Proof.
  induction l as [|x l IH]; intros acc k; simpl.
  - tauto.
  - rewrite IH, keys_set. intuition.
Qed.

Lemma fold_set_Forall {V : Type} (P : string * V -> Prop) (v : V)
      (l : list string) :
  (forall k, P (k, v)) ->
  forall acc : Dict.t V, Forall P acc ->
  Forall P (fold_left (fun d server => Dict.set server v d) l acc).
Proof.
  intros Hv. induction l as [|x l IH]; intros acc Hacc; simpl; auto.
  apply IH. apply Forall_set; auto.
Qed.

Lemma initial_turn_data_ok (P : EndpointHealth -> Prop) :
  P (initial_health config) -> table_ok config P (initial_turn_data config).
Proof.
  intros HP. split.
  - intros k. unfold initial_turn_data. rewrite fold_set_keys. simpl. tauto.
  - apply fold_set_Forall; simpl; auto.
Qed.

End Cycle_facts.

(** ** What every run preserves *)

Section Invariant.

Variable config : Config.
Variable float_of_fraction : Q -> Q.
Variable P : EndpointHealth -> Prop.
Hypothesis P_init : P (initial_health config).
Hypothesis P_step :
  forall e b, P e ->
  exists e', hysteresis e b = Ret e' /\ P e' /\ healthy e' <> None.

Lemma sys_inv_start : sys_inv config P start.
Proof.
  unfold sys_inv, start. simpl. repeat split; intros; discriminate.
Qed.

Lemma check_current_server_unset (r : nat) (g : Globals) :
  turn_server g = None -> check_current_server config r g = Ret g.
Proof. intros H. unfold check_current_server. now rewrite H. Qed.

Lemma probe_step (server : string) (b : bool) (r : nat) (g : Globals)
      (d : Dict.t EndpointHealth) :
  table_ok config P d -> turn_data g = Some d ->
  In server (registry config) ->
  exists g' e e',
    process_health_check config server b r g = Ret g' /\
    Dict.get server d = Some e /\ hysteresis e b = Ret e' /\
    P e' /\ healthy e' <> None /\
    turn_data g' = Some (Dict.set server e' d) /\
    (turn_server g' = turn_server g \/
     exists a, turn_server g' = Some a /\ In a (registry config) /\
               turn_server g <> None).
Proof.
  intros [Hkeys HP] Hd Hin.
  destruct (In_keys_get server d (proj2 (Hkeys server) Hin)) as [e He].
  assert (Pe : P e).
  { apply get_In in He. rewrite Forall_forall in HP. apply (HP _ He). }
  destruct (P_step e b Pe) as [e' [Hh [Pe' Hdet]]].
  destruct (process_health_check_entry config server b r g d e e'
              (In_nonempty _ _ Hin) Hd He Hh) as [g' [Hg' Hd']].
  exists g', e, e'. repeat split; auto.
  unfold process_health_check in Hg'.
  rewrite Hd in Hg'. simpl in Hg'. rewrite He in Hg'. simpl in Hg'.
  rewrite Hh in Hg'. simpl in Hg'.
  set (g1 := set_turn_data g (Dict.set server e' d)) in *.
  destruct (turn_server g) as [a0|] eqn:Ets.
  - destruct (check_current_server_inv _ _ _ _ Hg') as [->|Hr].
    + left. simpl. auto.
    + destruct (random_healthy_server_inv config r g1 g' _ eq_refl Hr)
        as [a [-> [Ha Hb]]].
      right. exists a. simpl. repeat split; try congruence.
      destruct (healthy_servers (Dict.set server e' d)) eqn:E; [auto|].
      assert (Hk : In a (Dict.keys (Dict.set server e' d))).
      { apply healthy_servers_keys. rewrite E. apply Ha. discriminate. }
      apply keys_set in Hk. destruct Hk as [->|Hk]; auto.
      now apply Hkeys.
  - rewrite check_current_server_unset in Hg' by (simpl; auto).
    inversion Hg'; subst. left. simpl. auto.
Qed.

Lemma sys_inv_step (s : System) (ev : event) :
  event_wf ev -> sys_inv config P s ->
  sys_inv config P (step config float_of_fraction s ev).
Proof.
  intros Hwf Hs. pose proof Hs as (Hhc & Htab & Hsrv).
  destruct ev as [|server b r|r resp]; simpl.
  - (* HcStart *)
    case_eq (turn_data (globals s)); [intros d Hd; exact Hs | intros Hd].
    rewrite Hhc. unfold sys_inv. simpl. split; [auto|]. split.
    + intros d H. inversion H; subst.
      apply initial_turn_data_ok; auto.
    + intros a H. destruct (Hsrv a H) as [_ [d [Hd' _]]]. congruence.
  - (* HcProbe *)
    case_eq (turn_data (globals s)); [intros d Hd | intros Hd; exact Hs].
    rewrite Hhc. simpl.
    destruct (str_in server (registry config)) eqn:Ein; [|exact Hs].
    apply str_in_In in Ein.
    destruct (probe_step server b r (globals s) d (Htab d Hd) Hd Ein)
      as (g' & e & e' & Hg' & He & Hh & Pe' & Hdet & Hd' & Hts).
    rewrite Hg'. destruct (Htab d Hd) as [Hkeys HP].
    unfold sys_inv. simpl. split; [auto|]. split.
    + intros d1 H. rewrite Hd' in H. inversion H; subst. split.
      * intros k. rewrite keys_set. split.
        -- intros [->|Hk]; [auto | now apply Hkeys].
        -- intros Hk. right. now apply Hkeys.
      * apply Forall_set; auto.
    + intros a H.
      assert (Hsome : turn_server (globals s) <> None).
      { destruct Hts as [E|[a' [_ [_ Hn]]]]; congruence. }
      destruct (turn_server (globals s)) as [a0|] eqn:E0; [|congruence].
      destruct (Hsrv a0 eq_refl) as [Ha0 [d0 [Hd0 Hdet0]]].
      assert (d0 = d) by congruence. subst d0. split.
      * destruct Hts as [E|[a' [E [Ha' _]]]]; congruence.
      * exists (Dict.set server e' d). split; auto.
        apply determined_set; auto.
  - (* LbCycle *)
    destruct (lb_alive s); [|exact Hs].
    destruct (waiting (globals s)) eqn:Ew; [exact Hs|].
    apply waiting_false in Ew. destruct Ew as [d [Hd Hdet]].
    destruct (lb_run_cycle config float_of_fraction r resp (globals s))
      as [g'|x] eqn:Ec; [|exact Hs].
    destruct (Htab d Hd) as [Hkeys HP].
    destruct (lb_run_cycle_inv config float_of_fraction r resp _ _ d Hwf Hd
                (fun k => proj1 (Hkeys k)) Ec) as [a [-> Ha]].
    unfold sys_inv. simpl. split; [auto|]. split; [auto|].
    intros a0 H. inversion H; subst. eauto.
Qed.

Lemma sys_inv_exec (evs : list event) :
  Forall event_wf evs ->
  forall s, sys_inv config P s ->
  sys_inv config P (exec config float_of_fraction evs s).
Proof.
  induction 1 as [|ev evs Hev Hevs IH]; intros s Hs; simpl; auto.
  apply IH. apply sys_inv_step; auto.
Qed.

Lemma reachable_inv (evs : list event) :
  Forall event_wf evs ->
  sys_inv config P (exec config float_of_fraction evs start).
Proof. intros H. apply sys_inv_exec; auto. apply sys_inv_start. Qed.

End Invariant.

(** ** The two record invariants *)

Lemma damped_known (N : Z) (h : bool) (c : Z) :
  (if h then 0 <= c < N else 0 < c <= N) -> damped N (known N h c).
Proof. unfold damped, known; simpl. destruct h; auto. Qed.

Lemma damped_step (N : Z) (e : EndpointHealth) (b : bool) :
  0 < N -> damped N e ->
  exists e', hysteresis e b = Ret e' /\ damped N e' /\ healthy e' <> None.
Proof.
  intros HN. destruct e as [i th fc h]. unfold damped. simpl.
  intros (-> & -> & H).
  destruct h as [[|]|]; destruct fc as [c|]; try contradiction.
  - (* Healthy *)
    destruct b.
    + exists (known N true 0). split; [apply pass_healthy; lia|].
      split; [apply damped_known; lia | discriminate].
    + destruct (Z.eq_dec (c + 1) N) as [E|E].
      * exists (known N false N). split; [apply fail_healthy_last; lia|].
        split; [apply damped_known; lia | discriminate].
      * exists (known N true (c + 1)). split; [apply fail_healthy; lia|].
        split; [apply damped_known; lia | discriminate].
  - (* Unhealthy *)
    destruct b.
    + destruct (Z.eq_dec c 1) as [E|E].
      * subst c. exists (known N true 0).
        split; [apply pass_unhealthy_last; lia|].
        split; [apply damped_known; lia | discriminate].
      * exists (known N false (c - 1)). split; [apply pass_unhealthy; lia|].
        split; [apply damped_known; lia | discriminate].
    + exists (known N false N). split; [apply fail_unhealthy; lia|].
      split; [apply damped_known; lia | discriminate].
  - (* Unknown *)
    destruct b.
    + exists (known N true 0). split; [apply first_pass|].
      split; [apply damped_known; lia | discriminate].
    + exists (known N false N). split; [apply first_fail; lia|].
      split; [apply damped_known; lia | discriminate].
Qed.

Lemma damped_initial (config : Config) :
  damped (successThreshold config) (initial_health config).
Proof. unfold damped, initial_health. simpl. auto. Qed.

Lemma update_healthy_consistent (N : Z) (e : EndpointHealth) (c : Z) :
  initial e = 0 -> success_th e = N -> failed_checks e = Some c ->
  (healthy e = None -> c = 0 \/ c = N) ->
  consistent N (update_healthy e) /\ healthy (update_healthy e) <> None.
Proof.
  destruct e as [i th fc h]. simpl. intros -> -> -> Hh.
  unfold update_healthy, consistent. simpl.
  destruct h as [[|]|]; simpl;
    destruct (Z.eqb_spec c 0); simpl;
    try destruct (Z.eqb_spec c N); simpl;
    repeat split; intros; try discriminate; try congruence;
    destruct (Hh eq_refl); contradiction.
Qed.

Ltac by_update_healthy :=
  eexists; split; [reflexivity|];
  eapply update_healthy_consistent;
  cbn [initial success_th failed_checks healthy with_failed_checks];
  try reflexivity; intros; try discriminate; auto.

Lemma consistent_step (N : Z) (e : EndpointHealth) (b : bool) :
  consistent N e ->
  exists e', hysteresis e b = Ret e' /\ consistent N e' /\ healthy e' <> None.
Proof.
  destruct e as [i th fc h]. unfold consistent. simpl.
  intros (-> & -> & H).
  destruct h as [h|]; destruct fc as [c|].
  - unfold hysteresis, update_failed_checks.
    cbn [initial success_th failed_checks healthy].
    destruct b.
    + destruct (c =? 0); cbn [bind]; [by_update_healthy|].
      destruct (h && (c >? 0)); cbn [bind]; by_update_healthy.
    + destruct (c =? N); cbn [bind]; [by_update_healthy|].
      destruct (negb h && (c <? N)); cbn [bind]; by_update_healthy.
  - destruct H as [_ H]. specialize (H eq_refl). discriminate.
  - destruct H as [H _]. specialize (H eq_refl). discriminate.
  - unfold hysteresis, update_failed_checks.
    cbn [initial success_th failed_checks healthy].
    destruct b; cbn [bind]; by_update_healthy.
Qed.

Lemma consistent_initial (config : Config) :
  consistent (successThreshold config) (initial_health config).
Proof. unfold consistent, initial_health. simpl. tauto. Qed.

Lemma damped_seq (N : Z) (bs : list bool) :
  0 < N ->
  forall e, damped N e ->
  exists e', hysteresis_seq e bs = Ret e' /\ damped N e' /\
             (bs <> [] -> healthy e' <> None).
Proof.
  intros HN. induction bs as [|b bs IH]; intros e He; simpl.
  - exists e. split; [reflexivity|]. split; [assumption|].
    intros H. congruence.
  - destruct (damped_step N e b HN He) as [e1 [H1 [D1 K1]]].
    rewrite H1. simpl.
    destruct (IH e1 D1) as [e' [H' [D' K']]].
    exists e'. split; [assumption|]. split; [assumption|]. intros _.
    destruct bs as [|b' bs]; [|apply K'; discriminate].
    simpl in H'. inversion H'; subst. auto.
Qed.

Lemma damped_shape (N : Z) (e : EndpointHealth) :
  damped N e -> healthy e <> None ->
  exists h c, healthy e = Some h /\ failed_checks e = Some c /\
              (h = true -> 0 <= c < N) /\ (h = false -> 0 < c <= N).
Proof.
  unfold damped. destruct e as [i th fc h]; simpl. intros (_ & _ & H) Hn.
  destruct h as [[|]|]; destruct fc as [c|]; try contradiction;
    try congruence.
  - exists true, c. repeat split; auto; try lia; discriminate.
  - exists false, c. repeat split; auto; try lia; discriminate.
Qed.

Lemma damped_bounds (N : Z) (e : EndpointHealth) (c : Z) :
  damped N e -> failed_checks e = Some c -> 0 <= c <= N.
Proof.
  unfold damped. destruct e as [i th fc h]; simpl. intros (_ & _ & H) Hc.
  subst fc. destruct h as [[|]|]; try contradiction; lia.
Qed.

Lemma reachable_damped (config : Config) (float_of_fraction : Q -> Q)
      (evs : list event) :
  0 < successThreshold config -> Forall event_wf evs ->
  sys_inv config (damped (successThreshold config))
          (exec config float_of_fraction evs start).
Proof.
  intros HN Hwf. apply reachable_inv; auto.
  - apply damped_initial.
  - intros e b. now apply damped_step.
Qed.

Lemma reachable_consistent (config : Config) (float_of_fraction : Q -> Q)
      (evs : list event) :
  Forall event_wf evs ->
  sys_inv config (consistent (successThreshold config))
          (exec config float_of_fraction evs start).
Proof.
  intros Hwf. apply reachable_inv; auto.
  - apply consistent_initial.
  - intros e b. apply consistent_step.
Qed.

Lemma exec_app (config : Config) (float_of_fraction : Q -> Q)
      (evs1 evs2 : list event) (s : System) :
  exec config float_of_fraction (evs1 ++ evs2) s =
  exec config float_of_fraction evs2 (exec config float_of_fraction evs1 s).
Proof. unfold exec. apply fold_left_app. Qed.

(** What a processed probe does to the table of a state of a run. *)
Lemma probe_in_run (config : Config) (float_of_fraction : Q -> Q)
      (P : EndpointHealth -> Prop) (s : System) (d : Dict.t EndpointHealth)
      (server : string) (passed : bool) (r : nat) :
  (forall e b, P e ->
     exists e', hysteresis e b = Ret e' /\ P e' /\ healthy e' <> None) ->
  sys_inv config P s ->
  turn_data (globals s) = Some d -> In server (registry config) ->
  exists e e',
    Dict.get server d = Some e /\ hysteresis e passed = Ret e' /\
    P e' /\ healthy e' <> None /\
    turn_data (globals (step config float_of_fraction s
                             (HcProbe server passed r)))
    = Some (Dict.set server e' d).
Proof.
  intros Pstep (Hhc & Htab & Hsrv) Hd Hin.
  destruct (probe_step config P Pstep server passed r (globals s) d
              (Htab d Hd) Hd Hin)
    as (g' & e & e' & Hg' & He & Hh & Pe' & Hdet & Hd' & _).
  exists e, e'. repeat split; auto.
  simpl. rewrite Hd, Hhc. simpl.
  apply str_in_In in Hin. rewrite Hin, Hg'. simpl. auto.
Qed.

(** C3. With a positive threshold N, the failure counter of an endpoint lies
    in [0, N] after every application of the hysteresis rule: after every
    non-empty sequence of probe results applied to the initial Unknown record,
    and, in a run of the threads, in every state of the table and after every
    processed probe. *)
Theorem failed_checks_bounded (config : Config) (float_of_fraction : Q -> Q) :
  0 < successThreshold config ->
  let N := successThreshold config in
  (forall bs, bs <> [] ->
     exists e' c, hysteresis_seq (initial_health config) bs = Ret e' /\
                  failed_checks e' = Some c /\ 0 <= c <= N)
  /\
  (forall evs, Forall event_wf evs ->
     let s := exec config float_of_fraction evs start in
     (forall d server e c,
        turn_data (globals s) = Some d -> Dict.get server d = Some e ->
        failed_checks e = Some c -> 0 <= c <= N) /\
     (forall d server passed r,
        turn_data (globals s) = Some d -> In server (registry config) ->
        exists d' e' c,
          turn_data (globals (step config float_of_fraction s
                                   (HcProbe server passed r))) = Some d' /\
          Dict.get server d' = Some e' /\
          failed_checks e' = Some c /\ 0 <= c <= N)).
Proof.
  intros HN N. split.
  - intros bs Hbs.
    destruct (damped_seq N bs HN _ (damped_initial config))
      as [e' [He' [D' K']]].
    destruct (damped_shape N e' D' (K' Hbs)) as [h [c [Hh [Hc _]]]].
    exists e', c. split; [assumption|]. split; [assumption|].
    eapply damped_bounds; eauto.
  - intros evs Hwf s.
    pose proof (reachable_damped config float_of_fraction evs HN Hwf) as Hinv.
    fold s in Hinv. split.
    + intros d server e c Hd He Hc.
      destruct Hinv as (_ & Htab & _). destruct (Htab d Hd) as [_ HP].
      apply get_In in He. rewrite Forall_forall in HP.
      apply (damped_bounds N e c (HP _ He) Hc).
    + intros d server passed r Hd Hin.
      destruct (probe_in_run config float_of_fraction _ s d server passed r
                  (fun e b => damped_step N e b HN) Hinv Hd Hin)
        as (e & e' & He & Hh & D' & K' & Hd').
      destruct (damped_shape N e' D' K') as [h [c [_ [Hc _]]]].
      exists (Dict.set server e' d), e', c.
      split; [assumption|]. split; [apply get_set_same|].
      split; [assumption|]. eapply damped_bounds; eauto.
Qed.

Lemma damped_implications (N : Z) (e : EndpointHealth) :
  damped N e -> implications N e.
Proof.
  unfold damped, implications. destruct e as [i th fc h]; simpl.
  intros (_ & _ & H).
  destruct h as [[|]|]; destruct fc as [c|]; try contradiction.
  - repeat split; intros E; inversion E; subst; try lia; eauto.
  - repeat split; intros E; inversion E; subst; try lia; eauto.
  - repeat split; intros E; discriminate.
Qed.

(** C2, as stated, fails: with threshold 3, a first successful probe then a
    failed one leave the endpoint Healthy with counter 1. *)
Lemma biconditionals_counterexample :
  exists e',
    hysteresis_seq (initial_health example_config) [true; false] = Ret e' /\
    healthy e' <> None /\
    ~ biconditionals (successThreshold example_config) e'.
Proof.
  exists (known 3 true 1). split; [reflexivity|]. split; [discriminate|].
  intros [[_ H] _]. specialize (H eq_refl). discriminate.
Qed.

(** C2, amended. With a positive threshold N, once the status of an endpoint
    is determined, after every application of the hysteresis rule a counter
    of 0 implies Healthy and a counter of N implies Unhealthy; a Healthy
    endpoint has its counter in [0, N-1] and an Unhealthy one in [1, N]. *)
Theorem counter_status_implications (config : Config)
        (float_of_fraction : Q -> Q) :
  0 < successThreshold config ->
  let N := successThreshold config in
  (forall bs, bs <> [] ->
     exists e', hysteresis_seq (initial_health config) bs = Ret e' /\
                healthy e' <> None /\ implications N e')
  /\
  (forall evs d server e,
     Forall event_wf evs ->
     turn_data (globals (exec config float_of_fraction evs start)) = Some d ->
     Dict.get server d = Some e ->
     implications N e).
Proof.
  intros HN N. split.
  - intros bs Hbs.
    destruct (damped_seq N bs HN _ (damped_initial config))
      as [e' [He' [D' K']]].
    exists e'. split; [assumption|]. split; [auto|].
    now apply damped_implications.
  - intros evs d server e Hwf Hd He.
    destruct (reachable_damped config float_of_fraction evs HN Hwf)
      as (_ & Htab & _).
    destruct (Htab d Hd) as [_ HP].
    apply get_In in He. rewrite Forall_forall in HP.
    apply damped_implications. apply (HP _ He).
Qed.

(** ** The reactive check *)

Lemma determined_count (d : Dict.t EndpointHealth) :
  determined d ->
  (length (unhealthy_marks d) + length (healthy_servers d) = length d)%nat.
Proof.
  unfold determined, unhealthy_marks, healthy_servers, Dict.values.
  induction 1 as [|[k e] d Hx Hd IH]; simpl; auto.
  rewrite !length_map in *. simpl in Hx.
  destruct (healthy e) as [[|]|]; simpl; try congruence; lia.
Qed.

Lemma in_range_spec (n lo hi : nat) :
  in_range n lo hi = true <-> (lo <= n < hi)%nat.
Proof.
  unfold in_range. rewrite andb_true_iff, Nat.leb_le, Nat.ltb_lt. tauto.
Qed.

Lemma server_truth_some (s : option string) :
  server_truth s = true -> exists a, s = Some a.
Proof. destruct s; simpl; [eauto | discriminate]. Qed.

(** What the check does in any state with a table. *)
Lemma check_current_server_spec (config : Config) (r : nat) (g : Globals)
      (d : Dict.t EndpointHealth) :
  turn_data g = Some d ->
  (server_truth (turn_server g) = true -> partial_outage d ->
   (forall a, turn_server g = Some a -> ~ In a (healthy_servers d)) ->
   check_current_server config r g = random_healthy_server config r g)
  /\
  (~ (server_truth (turn_server g) = true /\ partial_outage d /\
      (forall a, turn_server g = Some a -> ~ In a (healthy_servers d))) ->
   check_current_server config r g = Ret g).
Proof.
  intros Hd. unfold check_current_server, partial_outage. rewrite Hd. simpl.
  split.
  - intros Ht Hp Hn. rewrite Ht.
    apply in_range_spec in Hp. rewrite Hp.
    destruct (server_truth_some _ Ht) as [a Ha]. rewrite Ha.
    destruct (str_in a (healthy_servers d)) eqn:E; simpl; auto.
    apply str_in_In in E. exfalso. eapply Hn; eauto.
  - intros Hnot.
    destruct (server_truth (turn_server g)) eqn:Ht; auto.
    destruct (in_range _ _ _) eqn:Hp; auto.
    destruct (turn_server g) as [a|] eqn:Ha; auto.
    destruct (str_in a (healthy_servers d)) eqn:E; simpl; auto.
    exfalso. apply Hnot. split; auto. split; [now apply in_range_spec|].
    intros a' Ha' Hin. inversion Ha'; subst a'.
    apply str_in_In in Hin. congruence.
Qed.

(** In a state where the check runs, a set active endpoint means that every
    endpoint has been probed. *)
Lemma check_site_determined (config : Config) (float_of_fraction : Q -> Q)
      (g1 : Globals) (d1 : Dict.t EndpointHealth) :
  check_site config float_of_fraction g1 ->
  turn_data g1 = Some d1 -> turn_server g1 <> None -> determined d1.
Proof.
  intros (evs & server & passed & d & e & e' & Hwf & Hd & Hin & He & Hh & ->).
  simpl. intros H1 Hts. inversion H1; subst d1.
  destruct (reachable_consistent config float_of_fraction evs Hwf)
    as (_ & Htab & Hsrv).
  destruct (turn_server _) as [a|] eqn:Ea; [|congruence].
  destruct (Hsrv a eq_refl) as [_ [d0 [Hd0 Hdet]]].
  assert (d0 = d) by congruence. subst d0.
  apply determined_set; auto.
  destruct (Htab d Hd) as [_ HP]. rewrite Forall_forall in HP.
  pose proof (HP _ (get_In _ _ _ He)) as Pe. simpl in Pe.
  destruct (consistent_step _ e passed Pe) as [e'' [Hh' [_ Hn]]].
  congruence.
Qed.

(** C4. In a state where the check after a probe update runs: if every
    status is determined, an active endpoint is set, at least one but not
    every endpoint is Unhealthy and the active endpoint is not Healthy, the
    check overwrites the active endpoint with a Healthy endpoint, which
    differs from the old one; if one of these conditions fails, the check
    leaves the state as it is. *)
Theorem reactive_fast_path (config : Config) (float_of_fraction : Q -> Q)
        (r : nat) (g : Globals) (d : Dict.t EndpointHealth) :
  check_site config float_of_fraction g ->
  turn_data g = Some d ->
  (fast_path_conditions g d ->
   exists a, check_current_server config r g = Ret (set_turn_server g a) /\
             In a (healthy_servers d) /\ turn_server g <> Some a)
  /\
  (~ fast_path_conditions g d -> check_current_server config r g = Ret g).
Proof.
  intros Hsite Hd.
  destruct (check_current_server_spec config r g d Hd) as [Hyes Hno].
  split.
  - intros (Hdet & Ht & Hp & Hn).
    rewrite (Hyes Ht Hp Hn).
    assert (Hne : healthy_servers d <> []).
    { pose proof (determined_count d Hdet) as Hc. unfold partial_outage in Hp.
      destruct (healthy_servers d); [simpl in Hc; lia | discriminate]. }
    destruct (random_healthy_server_total config r g d Hd (or_intror Hne))
      as [g' Hg'].
    destruct (random_healthy_server_inv config r g g' d Hd Hg')
      as [a [-> [Ha _]]].
    exists a. split; [assumption|]. split; [auto|].
    intros E. apply (Hn a E). auto.
  - intros Hnot. apply Hno. intros (Ht & Hp & Hn). apply Hnot.
    split; [|auto].
    eapply check_site_determined; eauto.
    destruct (server_truth_some _ Ht) as [a Ha]. congruence.
Qed.

(** ** The selection cycle and its fallbacks *)

(** C9. When no endpoint is Healthy and the registry is not empty, the
    random-healthy fallback and the selection cycle, in either mode, do what
    the unconditional random choice does: they write an address of the
    registry into the active endpoint, which is therefore set, and non-empty
    when no address of the registry is the empty string. *)
Theorem total_outage_liveness (config : Config) (float_of_fraction : Q -> Q)
        (r : nat) (resp : http_outcome) (g : Globals)
        (d : Dict.t EndpointHealth) :
  registry config <> [] ->
  turn_data g = Some d -> healthy_servers d = [] ->
  exists a,
    In a (registry config) /\
    random_server config r g = Ret (set_turn_server g a) /\
    random_healthy_server config r g = Ret (set_turn_server g a) /\
    lb_run_cycle config float_of_fraction r resp g = Ret (set_turn_server g a) /\
    turn_server (set_turn_server g a) = Some a /\
    (~ In "" (registry config) -> server_truth (Some a) = true).
Proof.
  intros Hne Hd Hh.
  destruct (random_server_total config r g Hne) as [a [Ha Hin]].
  exists a. split; [assumption|]. split; [assumption|].
  assert (Hrh : random_healthy_server config r g = Ret (set_turn_server g a)).
  { unfold random_healthy_server. rewrite Hd. simpl. rewrite Hh. assumption. }
  split; [assumption|]. split.
  - unfold lb_run_cycle.
    destruct (String.eqb (algorithm config) "random"); [assumption|].
    rewrite Hd. simpl. rewrite cycle_healthy_servers, Hh. assumption.
  - split; [reflexivity|].
    intros Hno. simpl. destruct (String.eqb_spec a ""); [|reflexivity].
    subst a. contradiction.
Qed.

(** C7. In metric-driven mode with more than one Healthy endpoint, when the
    range query raises, answers with a non-success response or returns an
    empty result list, the selection cycle is the random-healthy selection:
    it returns normally, and in the state it returns the active endpoint is
    a Healthy endpoint, the one drawn among the Healthy endpoints, whatever
    it was before; the table is the one of the state before. *)
Theorem metrics_failure_fallback (config : Config) (float_of_fraction : Q -> Q)
        (r : nat) (resp : http_outcome) (g : Globals)
        (d : Dict.t EndpointHealth) :
  String.eqb (algorithm config) "random" = false ->
  turn_data g = Some d ->
  (2 <= length (healthy_servers d))%nat ->
  resp = RequestFailed \/ resp = ResponseNotOk \/ resp = ResponseResult [] ->
  lb_run_cycle config float_of_fraction r resp g
  = random_healthy_server config r g /\
  exists a g',
    lb_run_cycle config float_of_fraction r resp g = Ret g' /\
    turn_server g' = Some a /\
    turn_data g' = turn_data g /\
    choice r (healthy_servers d) = Ret a /\
    In a (healthy_servers d).
Proof.
  intros Hmode Hd Hlen Hresp.
  assert (E : lb_run_cycle config float_of_fraction r resp g
              = random_healthy_server config r g).
  { unfold lb_run_cycle. rewrite Hmode, Hd. simpl.
    rewrite cycle_healthy_servers.
    destruct (healthy_servers d) as [|h1 [|h2 hs]]; simpl in Hlen; try lia.
    destruct Hresp as [->|[->| ->]]; reflexivity. }
  split; [assumption|]. rewrite E.
  assert (Hne : healthy_servers d <> []).
  { destruct (healthy_servers d); [simpl in Hlen; lia | discriminate]. }
  destruct (random_healthy_server_draw config r g d Hd Hne)
    as [a [Hc [Ha Hg']]].
  exists a, (set_turn_server g a).
  split; [assumption|]. split; [reflexivity|]. split; [reflexivity|].
  split; assumption.
Qed.

Lemma process_metrics_from_raises (config : Config) (l : list Series) :
  Exists (unrecognized config) l ->
  forall acc, process_metrics_from config acc l = Raise ConfigError.
Proof.
  unfold unrecognized.
  induction l as [|s l IH]; intros Hex acc; [inversion Hex|].
  simpl. destruct (find_label config (metric s)) as [label|] eqn:Ef;
    [|reflexivity].
  simpl. destruct (String.eqb label ""); [reflexivity|]. simpl.
  assert (Hl : Exists (fun s0 => find_label config (metric s0) = None) l).
  { inversion Hex; subst; [congruence | assumption]. }
  destruct (Z.of_nat _ <? _); [now apply IH|].
  destruct (find_label_get_some config _ _ Ef) as [server Hs].
  rewrite Hs. simpl. now apply IH.
Qed.

(** C8, as stated, fails: with two Healthy relays and a result whose only
    series is labelled with an unknown address, the cycle raises instead of
    doing what the random-healthy selection does. *)
Lemma unrecognized_label_counterexample :
  unrecognized example_config stray_series /\
  lb_run_cycle example_config exact 0 (ResponseResult [stray_series]) both_healthy
  = Raise ConfigError /\
  random_healthy_server example_config 0 both_healthy
  = Ret (set_turn_server both_healthy "10.0.0.1") /\
  lb_run_cycle example_config exact 0 (ResponseResult [stray_series]) both_healthy
  <> random_healthy_server example_config 0 both_healthy.
Proof.
  split; [reflexivity|]. split; [reflexivity|]. split; [reflexivity|].
  intros H. vm_compute in H. discriminate.
Qed.

(** C8, amended. In metric-driven mode with more than one Healthy endpoint,
    when the query result contains a series none of whose label values is an
    address of the registry, [process_metrics] raises its configuration
    error and the selection cycle raises it too: no fallback selection is
    made and the active endpoint stays as it was; the selection thread is
    dead from then on, which [check_threads] reports at its next poll. *)
Theorem unrecognized_label_terminates (config : Config)
        (float_of_fraction : Q -> Q) (r : nat) (g : Globals)
        (d : Dict.t EndpointHealth) (l : list Series) :
  String.eqb (algorithm config) "random" = false ->
  turn_data g = Some d ->
  (2 <= length (healthy_servers d))%nat ->
  Exists (unrecognized config) l ->
  process_metrics config l = Raise ConfigError /\
  lb_run_cycle config float_of_fraction r (ResponseResult l) g
  = Raise ConfigError /\
  (forall s, globals s = g -> lb_alive s = true -> waiting g = false ->
     step config float_of_fraction s (LbCycle r (ResponseResult l)) = lb_dead s /\
     globals (lb_dead s) = g /\
     (forall r' resp',
        step config float_of_fraction (lb_dead s) (LbCycle r' resp') = lb_dead s) /\
     (forall polls, check_threads (lb_dead s :: polls) = true)).
Proof.
  intros Hmode Hd Hlen Hex.
  assert (Hpm : process_metrics config l = Raise ConfigError).
  { unfold process_metrics. now apply process_metrics_from_raises. }
  assert (Hc : lb_run_cycle config float_of_fraction r (ResponseResult l) g
               = Raise ConfigError).
  { unfold lb_run_cycle. rewrite Hmode, Hd. simpl.
    rewrite cycle_healthy_servers.
    destruct (healthy_servers d) as [|h1 [|h2 hs]]; simpl in Hlen; try lia.
    simpl. destruct l as [|s l]; [inversion Hex|].
    rewrite Hpm. reflexivity. }
  split; [assumption|]. split; [assumption|].
  intros s Hg Halive Hw. subst g.
  split; [simpl; now rewrite Halive, Hw, Hc|].
  split; [reflexivity|]. split; [reflexivity|].
  intros polls. simpl. destruct (hc_alive s); reflexivity.
Qed.

(** ** The active endpoint *)

Section Active_endpoint.

Variable config : Config.
Variable float_of_fraction : Q -> Q.

Lemma random_healthy_server_sets (r : nat) (g g' : Globals) :
  random_healthy_server config r g = Ret g' ->
  exists a, g' = set_turn_server g a.
Proof.
  intros H. destruct (turn_data g) as [d|] eqn:Hd.
  - destruct (random_healthy_server_inv config r g g' d Hd H) as [a [-> _]].
    eauto.
  - unfold random_healthy_server in H. rewrite Hd in H. discriminate.
Qed.

Lemma lb_run_cycle_sets (r : nat) (resp : http_outcome) (g g' : Globals) :
  lb_run_cycle config float_of_fraction r resp g = Ret g' ->
  exists a, g' = set_turn_server g a.
Proof.
  unfold lb_run_cycle.
  destruct (String.eqb (algorithm config) "random");
    [apply random_healthy_server_sets|].
  destruct (turn_data g) as [d|]; simpl; [|discriminate].
  destruct (map fst _) as [|h1 [|h2 hs]].
  - intros H. apply random_server_inv in H. destruct H as [a [-> _]]. eauto.
  - simpl. intros H. inversion H. eauto.
  - destruct resp as [| | |l]; simpl; try discriminate;
      try apply random_healthy_server_sets.
    destruct l as [|s l]; [apply random_healthy_server_sets|].
    intros H. apply bind_ret in H. destruct H as [m [Hm H]].
    destruct m as [|x m]; [eapply random_healthy_server_sets; eauto|].
    apply select_server_inv in H. destruct H as [a [-> _]]. eauto.
Qed.

Lemma process_health_check_server (server : string) (b : bool) (r : nat)
      (g g' : Globals) :
  process_health_check config server b r g = Ret g' ->
  turn_server g <> None -> turn_server g' <> None.
Proof.
  unfold process_health_check. intros H Hts.
  apply bind_ret in H. destruct H as [d [Hd H]].
  apply bind_ret in H. destruct H as [e [He H]].
  apply bind_ret in H. destruct H as [e' [He' H]].
  apply check_current_server_inv in H. destruct H as [->|H]; [simpl; auto|].
  apply random_healthy_server_sets in H. destruct H as [a ->].
  simpl. discriminate.
Qed.

Lemma step_keeps_server (s : System) (ev : event) :
  turn_server (globals s) <> None ->
  turn_server (globals (step config float_of_fraction s ev)) <> None.
Proof.
  intros Hts. destruct ev as [|server b r|r resp]; simpl.
  - destruct (turn_data (globals s)); auto.
    destruct (hc_alive s); simpl; auto.
  - destruct (turn_data (globals s)); auto.
    destruct (hc_alive s && str_in server (registry config)); auto.
    destruct (process_health_check config server b r (globals s)) eqn:E;
      simpl; auto.
    eapply process_health_check_server; eauto.
  - destruct (lb_alive s); auto.
    destruct (waiting (globals s)); auto.
    destruct (lb_run_cycle config float_of_fraction r resp (globals s)) eqn:E;
      simpl; auto.
    apply lb_run_cycle_sets in E. destruct E as [a0 ->]. simpl. discriminate.
Qed.

Lemma exec_keeps_server (evs : list event) :
  forall s, turn_server (globals s) <> None ->
  turn_server (globals (exec config float_of_fraction evs s)) <> None.
Proof.
  induction evs as [|ev evs IH]; intros s Hts; simpl; auto.
  apply IH. now apply step_keeps_server.
Qed.

End Active_endpoint.

(** C10. In every run, the active endpoint, once set, is an address of the
    registry and is never unset again; and each operation that writes it (the
    unconditional and the random-healthy selection, the minimum-mean
    selection on the processed metrics, the single-healthy shortcut and the
    other branches of the selection cycle, the probe processing with its
    reactive check), run in a state of a run, stores an address of the
    registry. *)
Theorem active_endpoint_in_registry (config : Config)
        (float_of_fraction : Q -> Q) (evs : list event) :
  Forall event_wf evs ->
  let s := exec config float_of_fraction evs start in
  let g := globals s in
  (forall a, turn_server g = Some a -> In a (registry config)) /\
  (forall evs', turn_server g <> None ->
     turn_server (globals (exec config float_of_fraction evs' s)) <> None) /\
  (forall r g', random_server config r g = Ret g' ->
     exists a, g' = set_turn_server g a /\ In a (registry config)) /\
  (forall r g', random_healthy_server config r g = Ret g' ->
     exists a, g' = set_turn_server g a /\ In a (registry config)) /\
  (forall r l m g',
     Forall series_wf l -> process_metrics config l = Ret m ->
     select_server float_of_fraction r m g = Ret g' ->
     exists a, g' = set_turn_server g a /\ In a (registry config)) /\
  (forall r resp g',
     outcome_wf resp ->
     lb_run_cycle config float_of_fraction r resp g = Ret g' ->
     exists a, g' = set_turn_server g a /\ In a (registry config)) /\
  (forall server passed r g' a,
     In server (registry config) ->
     process_health_check config server passed r g = Ret g' ->
     turn_server g' = Some a -> In a (registry config)).
Proof.
  intros Hwf s g.
  pose proof (reachable_consistent config float_of_fraction evs Hwf) as Hinv.
  fold s in Hinv. pose proof Hinv as (Hhc & Htab & Hsrv). fold g in Htab, Hsrv.
  split; [intros a Ha; now apply Hsrv|].
  split; [intros evs' Hts; now apply exec_keeps_server|].
  split; [intros r g'; apply random_server_inv|].
  assert (Hrh : forall r g', random_healthy_server config r g = Ret g' ->
                exists a, g' = set_turn_server g a /\ In a (registry config)).
  { intros r g' H. destruct (turn_data g) as [d|] eqn:Hd.
    - destruct (random_healthy_server_inv config r g g' d Hd H)
        as [a [-> [Ha Hb]]].
      exists a. split; [reflexivity|].
      destruct (healthy_servers d) eqn:E; [auto|].
      destruct (Htab d eq_refl) as [Hkeys _]. apply Hkeys.
      apply healthy_servers_keys. rewrite E. apply Ha. discriminate.
    - unfold random_healthy_server in H. rewrite Hd in H. discriminate. }
  split; [assumption|].
  split.
  { intros r l m g' Hl Hm H.
    apply select_server_inv in H. destruct H as [a [-> Ha]].
    exists a. split; [reflexivity|]. eapply process_metrics_keys; eauto. }
  split.
  { intros r resp g' Hresp H. destruct (turn_data g) as [d|] eqn:Hd.
    - destruct (Htab d eq_refl) as [Hkeys _].
      eapply lb_run_cycle_inv; eauto. intros k. apply Hkeys.
    - unfold lb_run_cycle in H.
      destruct (String.eqb (algorithm config) "random").
      + eapply Hrh; eauto.
      + rewrite Hd in H. discriminate. }
  intros server passed r g' a Hin H Ha.
  assert (Hev : Forall event_wf (evs ++ [HcProbe server passed r])).
  { apply Forall_app. split; [assumption|]. repeat constructor. }
  pose proof (reachable_consistent config float_of_fraction _ Hev)
    as (_ & _ & Hsrv').
  rewrite exec_app in Hsrv'. fold s in Hsrv'.
  assert (Hstep : globals (exec config float_of_fraction
                                [HcProbe server passed r] s) = g').
  { unfold g in *. simpl. destruct (turn_data (globals s)) as [d|] eqn:Hd.
    - rewrite Hhc. apply str_in_In in Hin. rewrite Hin. simpl.
      rewrite H. reflexivity.
    - unfold process_health_check in H. rewrite Hd in H. discriminate. }
  rewrite Hstep in Hsrv'. now apply Hsrv'.
Qed.

(** ** Processing the metrics *)

Section Process_metrics.

Variable config : Config.

Lemma process_metrics_from_total (l : list Series) :
  Forall (recognized config) l ->
  forall acc, exists m, process_metrics_from config acc l = Ret m.
Proof.
  unfold recognized. induction 1 as [|s l Hs Hl IH]; intros acc; simpl.
  - eauto.
  - rewrite Hs. simpl.
    destruct (find_label config (metric s)) as [label|] eqn:Ef;
      [|discriminate].
    destruct (Z.of_nat _ <? _); [apply IH|]. simpl.
    destruct (find_label_get_some config _ _ Ef) as [server Hg].
    rewrite Hg. simpl. apply IH.
Qed.

Lemma process_metrics_from_spec (l : list Series) :
  forall acc m,
  process_metrics_from config acc l = Ret m ->
  (forall server data,
     In (server, data) m ->
     In (server, data) acc \/
     exists s, In s l /\ endpoint_of config s = Some server /\
               samples s = data /\
               durationMinutes config <= Z.of_nat (length data)) /\
  (forall s server,
     In s l -> endpoint_of config s = Some server ->
     durationMinutes config <= Z.of_nat (length (samples s)) ->
     In server (Dict.keys m)) /\
  (forall k, In k (Dict.keys acc) -> In k (Dict.keys m)).
Proof.
  induction l as [|s l IH]; intros acc m; simpl.
  - intros H. inversion H; subst. repeat split; auto.
    intros s server [].
  - destruct (find_label config (metric s)) as [label|] eqn:Ef; simpl;
      [|discriminate].
    destruct (negb (String.eqb label "")); simpl; [|discriminate].
    fold (samples s).
    destruct (Z.ltb_spec (Z.of_nat (length (samples s)))
                         (durationMinutes config)) as [Hshort|Hlong].
    + intros H. destruct (IH acc m H) as (Ha & Hb & Hc).
      split; [|split]; auto.
      * intros server data Hin. destruct (Ha server data Hin) as [?|[s' [? ?]]];
          [now left | right; exists s'; split; [now right | assumption]].
      * intros s' server [->|Hin] He Hlen; [lia | eauto].
    + destruct (Dict.get label (metric s)) as [server0|] eqn:Eg; simpl;
        [|discriminate].
      intros H.
      destruct (IH (Dict.set server0 (samples s) acc) m H) as (Ha & Hb & Hc).
      assert (He0 : endpoint_of config s = Some server0).
      { unfold endpoint_of. now rewrite Ef. }
      split; [|split].
      * intros server data Hin.
        destruct (Ha server data Hin) as [Hset|[s' [? ?]]].
        -- apply In_set in Hset. destruct Hset as [E|?]; [|now left].
           inversion E; subst. right. exists s.
           split; [now left|]. auto.
        -- right. exists s'. split; [now right | assumption].
      * intros s' server [->|Hin] He Hlen; [|eauto].
        apply Hc. apply keys_set. left. congruence.
      * intros k Hk. apply Hc. apply keys_set. now right.
Qed.

End Process_metrics.

(** C6. Whenever every series of the query result is recognized,
    [process_metrics] returns a map; and in the map it returns, every entry
    is an endpoint with the full sample list of one of its series that has at
    least [durationMinutes] samples, so no series with fewer samples is kept
    and an endpoint with only such series cannot be chosen by the metric
    comparison; every endpoint with a series of at least [durationMinutes]
    samples is in the map, with the samples of that series when the endpoint
    has no other series. *)
Theorem insufficient_data_exclusion (config : Config)
        (float_of_fraction : Q -> Q) (l : list Series) :
  (Forall (recognized config) l -> exists m, process_metrics config l = Ret m) /\
  (forall m, process_metrics config l = Ret m ->
     (forall server data,
        In (server, data) m ->
        exists s, In s l /\ endpoint_of config s = Some server /\
                  samples s = data /\
                  durationMinutes config <= Z.of_nat (length (samples s))) /\
     (forall r g g',
        select_server float_of_fraction r m g = Ret g' ->
        exists a s, g' = set_turn_server g a /\ In s l /\
                    endpoint_of config s = Some a /\
                    durationMinutes config <= Z.of_nat (length (samples s))) /\
     (forall s server,
        In s l -> endpoint_of config s = Some server ->
        durationMinutes config <= Z.of_nat (length (samples s)) ->
        exists data,
          Dict.get server m = Some data /\
          durationMinutes config <= Z.of_nat (length data) /\
          ((forall s', In s' l -> endpoint_of config s' = Some server -> s' = s) ->
           data = samples s))).
Proof.
  split.
  - intros H. apply process_metrics_from_total. assumption.
  - intros m Hm. unfold process_metrics in Hm.
    destruct (process_metrics_from_spec config l [] m Hm) as (Ha & Hb & _).
    assert (Hentry : forall server data,
              In (server, data) m ->
              exists s, In s l /\ endpoint_of config s = Some server /\
                        samples s = data /\
                        durationMinutes config <= Z.of_nat (length (samples s))).
    { intros server data Hin.
      destruct (Ha server data Hin) as [[]|[s (H1 & H2 & H3 & H4)]].
      exists s. subst data. auto. }
    split; [assumption|]. split.
    + intros r g g' Hsel.
      apply select_server_inv in Hsel. destruct Hsel as [a [-> Hin]].
      destruct (In_keys_get a m Hin) as [data Hg].
      destruct (Hentry a data (get_In _ _ _ Hg)) as [s (H1 & H2 & H3 & H4)].
      exists a, s. auto.
    + intros s server Hin He Hlen.
      destruct (In_keys_get server m (Hb s server Hin He Hlen)) as [data Hg].
      exists data. split; [assumption|].
      destruct (Hentry server data (get_In _ _ _ Hg)) as [s' (H1 & H2 & H3 & H4)].
      split; [subst data; assumption|].
      intros Huniq. rewrite <- (Huniq s' H1 H2). auto.
Qed.

(** ** The order and the equality of floats *)

Lemma float_lt_nan_r (x : pyfloat) : float_lt x NaN = false.
Proof. destruct x; reflexivity. Qed.

Lemma float_eq_nan_r (x : pyfloat) : float_eq x NaN = false.
Proof. destruct x; reflexivity. Qed.

Lemma float_eq_refl (x : pyfloat) : x <> NaN -> float_eq x x = true.
Proof.
  destruct x; simpl; intros H; try reflexivity; [|congruence].
  apply Qeq_bool_iff. apply Qeq_refl.
Qed.

Lemma float_lt_finite (p q : Q) :
  float_lt (Finite p) (Finite q) = true <-> (p < q)%Q.
Proof.
  simpl. rewrite negb_true_iff. split.
  - intros H. apply Qnot_le_lt. intros Hle.
    apply Qle_bool_iff in Hle. congruence.
  - intros H. destruct (Qle_bool q p) eqn:E; [|reflexivity].
    apply Qle_bool_iff in E. exfalso. apply (Qlt_not_le _ _ H E).
Qed.

Lemma float_lt_finite_false (p q : Q) :
  float_lt (Finite p) (Finite q) = false <-> (q <= p)%Q.
Proof.
  simpl. rewrite negb_false_iff. apply Qle_bool_iff.
Qed.

Lemma float_lt_irrefl (x : pyfloat) : float_lt x x = false.
Proof.
  destruct x; try reflexivity.
  apply float_lt_finite_false. apply Qle_refl.
Qed.

(** What is not below [c] is not below anything below [c]. *)
Lemma float_lt_keep (x y c : pyfloat) :
  float_lt x c = true -> float_lt y c = false -> float_lt y x = false.
Proof.
  destruct x as [p| | |]; destruct y as [q| | |]; destruct c as [c| | |];
    try reflexivity; try discriminate.
  intros Hx Hy. apply float_lt_finite in Hx.
  apply float_lt_finite_false in Hy. apply float_lt_finite_false.
  apply Qlt_le_weak. eapply Qlt_le_trans; eauto.
Qed.

Lemma float_lt_asym (x c : pyfloat) :
  float_lt x c = true -> float_lt c x = false.
Proof.
  intros H. apply (float_lt_keep x c c H). apply float_lt_irrefl.
Qed.

(** What is not below [m] is not below a value equal to [m]. *)
Lemma float_lt_eq_r (y v m : pyfloat) :
  float_eq v m = true -> float_lt y m = false -> float_lt y v = false.
Proof.
  destruct v as [p| | |]; destruct m as [q| | |]; destruct y as [c| | |];
    try reflexivity; try discriminate.
  intros He Hy. apply Qeq_bool_iff in He.
  apply float_lt_finite_false in Hy. apply float_lt_finite_false.
  rewrite He. assumption.
Qed.


(** ** [min] on floats *)

Lemma min_from_nan (xs : list pyfloat) : min_from NaN xs = NaN.
Proof.
  induction xs as [|x xs IH]; simpl; [reflexivity|].
  rewrite float_lt_nan_r. assumption.
Qed.

Lemma min_from_spec (xs : list pyfloat) :
  forall cur,
  (min_from cur xs = cur \/ In (min_from cur xs) xs) /\
  (cur <> NaN -> min_from cur xs <> NaN) /\
  (forall x, In x xs -> float_lt x (min_from cur xs) = false) /\
  (forall y, float_lt y cur = false -> float_lt y (min_from cur xs) = false).
Proof.
  induction xs as [|x xs IH]; intros cur; simpl.
  - split; [now left|]. split; [auto|]. split; [intros x []|auto].
  - destruct (float_lt x cur) eqn:E.
    + destruct (IH x) as (H1 & H2 & H3 & H4).
      split; [destruct H1 as [->|H1]; auto|].
      split.
      { intros _. apply H2. intros Hx. subst x. discriminate. }
      split.
      { intros y [->|Hy]; [apply H4; apply float_lt_irrefl | auto]. }
      intros y Hy. apply H4. eapply float_lt_keep; eauto.
    + destruct (IH cur) as (H1 & H2 & H3 & H4).
      split; [destruct H1; auto|]. split; [assumption|]. split; [|assumption].
      intros y [->|Hy]; auto.
Qed.

Lemma py_min_spec (x : pyfloat) (xs : list pyfloat) :
  x <> NaN ->
  exists m, py_min (x :: xs) = Ret m /\ In m (x :: xs) /\ m <> NaN /\
            forall y, In y (x :: xs) -> float_lt y m = false.
Proof.
  intros Hx. simpl.
  destruct (min_from_spec xs x) as (H1 & H2 & H3 & H4).
  exists (min_from x xs). split; [reflexivity|]. split.
  - destruct H1 as [->|H1]; auto.
  - split; [auto|]. intros y [->|Hy]; [apply H4; apply float_lt_irrefl | auto].
Qed.

Lemma py_min_nan (xs : list pyfloat) : py_min (NaN :: xs) = Ret NaN.
Proof. simpl. now rewrite min_from_nan. Qed.

Lemma filter_eq_nan (mm : Dict.t pyfloat) :
  filter (fun item => float_eq (snd item) NaN) mm = [].
Proof.
  induction mm as [|[k v] mm IH]; simpl; [reflexivity|].
  now rewrite float_eq_nan_r.
Qed.



(** ** Selecting by minimum mean *)

Section Select_server.

Variable float_of_fraction : Q -> Q.

Lemma mean_nonempty (data : list pyfloat) :
  data <> [] -> mean float_of_fraction data = Ret (mean_value float_of_fraction data).
Proof.
  destruct data as [|x data]; [congruence|]. intros _.
  unfold mean, mean_value, arithmetic_mean.
  destruct (special_total None (x :: data)); reflexivity.
Qed.


Lemma mean_metrics_value (metrics : Dict.t (list pyfloat)) :
  Forall (fun item => snd item <> []) metrics ->
  mean_metrics float_of_fraction metrics =
  Ret (map (fun item => (fst item, mean_value float_of_fraction (snd item)))
           metrics).
Proof.
  induction 1 as [|[server data] metrics Hx Hm IH]; simpl; auto.
  simpl in Hx. rewrite (mean_nonempty data Hx). simpl.
  rewrite IH. reflexivity.
Qed.

(** A first mean that is [nan] is the minimum, nothing is equal to it, and the
    choice among no endpoint raises. *)
Lemma select_server_nan (r : nat) (first : string * list pyfloat)
      (rest : Dict.t (list pyfloat)) (g : Globals) :
  Forall (fun item => snd item <> []) (first :: rest) ->
  mean_value float_of_fraction (snd first) = NaN ->
  select_server float_of_fraction r (first :: rest) g = Raise IndexError.
Proof.
  intros Hdata Hnan. unfold select_server.
  rewrite (mean_metrics_value _ Hdata). cbn [bind map Dict.values snd].
  rewrite Hnan, py_min_nan. cbn [bind].
  rewrite (filter_eq_nan ((fst first, NaN) :: _)).
  change (Dict.keys (@nil (string * pyfloat))) with (@nil string).
  now rewrite choice_nil.
Qed.

(** A first mean that is not [nan] makes the selection return an endpoint
    whose mean is the minimum. *)
Lemma select_server_min (r : nat) (first : string * list pyfloat)
      (rest : Dict.t (list pyfloat)) (g : Globals) :
  Forall (fun item => snd item <> []) (first :: rest) ->
  mean_value float_of_fraction (snd first) <> NaN ->
  exists a data min_value,
    select_server float_of_fraction r (first :: rest) g
    = Ret (set_turn_server g a) /\
    In (a, data) (first :: rest) /\
    py_min (map (fun item => mean_value float_of_fraction (snd item))
                (first :: rest)) = Ret min_value /\
    min_value <> NaN /\
    float_eq (mean_value float_of_fraction data) min_value = true /\
    (forall server data', In (server, data') (first :: rest) ->
       float_lt (mean_value float_of_fraction data')
                (mean_value float_of_fraction data) = false).
Proof.
  intros Hdata Hfirst.
  set (metrics := first :: rest) in *.
  set (mv := fun item : string * list pyfloat =>
               (fst item, mean_value float_of_fraction (snd item))).
  set (mm := map mv metrics).
  assert (Hvals : Dict.values mm
                  = map (fun item => mean_value float_of_fraction (snd item))
                        metrics).
  { unfold mm, Dict.values. rewrite map_map. reflexivity. }
  destruct (py_min_spec (mean_value float_of_fraction (snd first))
              (map (fun item => mean_value float_of_fraction (snd item)) rest)
              Hfirst) as [mn (Hmin & Hin & Hnn & Hle)].
  change (mean_value float_of_fraction (snd first)
          :: map (fun item => mean_value float_of_fraction (snd item)) rest)
    with (map (fun item => mean_value float_of_fraction (snd item)) metrics)
    in Hmin, Hin, Hle.
  set (all_matches := filter (fun item => float_eq (snd item) mn) mm).
  assert (Hmne : Dict.keys all_matches <> []).
  { rewrite <- Hvals in Hin. unfold Dict.values in Hin.
    apply in_map_iff in Hin.
    destruct Hin as [[k v] [Hv Hk]]. simpl in Hv. subst v.
    assert (Hf : In (k, mn) all_matches).
    { apply filter_In. split; [assumption|]. simpl.
      now apply float_eq_refl. }
    intros E. unfold Dict.keys in E. apply map_eq_nil in E.
    rewrite E in Hf. destruct Hf. }
  destruct (choice_total r _ Hmne) as [a [Hch Ha]].
  unfold Dict.keys in Ha. apply in_map_iff in Ha.
  destruct Ha as [[a' v] [Ea Hav]]. simpl in Ea. subst a'.
  apply filter_In in Hav. destruct Hav as [Hav Heq]. simpl in Heq.
  unfold mm in Hav. apply in_map_iff in Hav.
  destruct Hav as [[a' data] [Emv Hdat]]. unfold mv in Emv. simpl in Emv.
  inversion Emv; subst a' v. clear Emv.
  exists a, data, mn.
  split.
  { unfold select_server. rewrite (mean_metrics_value _ Hdata).
    cbn [bind]. fold mv. fold mm. rewrite Hvals, Hmin. cbn [bind].
    fold all_matches. rewrite Hch. reflexivity. }
  split; [assumption|]. split; [assumption|]. split; [assumption|].
  split; [assumption|].
  intros server data' Hin'. apply (float_lt_eq_r _ _ mn Heq). apply Hle.
  apply in_map_iff. exists (server, data'). auto.
Qed.

End Select_server.



(** * The theorems at concrete inputs *)

Lemma hysteresis_exactness_witness :
  0 < successThreshold example_config /\
  In "10.0.0.1" (registry example_config) /\
  ends_with "10.0.0.1" false 3
            (probes example_config "10.0.0.1"
                    [(false, 0%nat); (false, 1%nat); (false, 2%nat)]
                    both_healthy) /\
  ends_with "10.0.0.1" true 0
            (probes example_config "10.0.0.1"
                    [(false, 0%nat); (false, 1%nat); (true, 2%nat)]
                    both_healthy) /\
  ends_with "10.0.0.1" true 0
            (probes example_config "10.0.0.1"
                    [(true, 0%nat); (true, 1%nat); (true, 2%nat)]
                    both_unhealthy).
Proof.
  assert (H0 : 0 < successThreshold example_config) by (simpl; lia).
  assert (H1 : In "10.0.0.1" (registry example_config)) by (simpl; auto).
  split; [exact H0|]. split; [exact H1|].
  pose proof (hysteresis_exactness example_config "10.0.0.1" both_healthy
                _ (known 3 true 0) H0 H1 eq_refl eq_refl eq_refl eq_refl) as Hh.
  pose proof (hysteresis_exactness example_config "10.0.0.1" both_unhealthy
                _ (known 3 false 3) H0 H1 eq_refl eq_refl eq_refl eq_refl) as Hu.
  cbv zeta in Hh, Hu.
  destruct Hh as [Hh _]. destruct (Hh eq_refl eq_refl) as (Ha & _ & Hc).
  destruct Hu as [_ Hu]. destruct (Hu eq_refl eq_refl) as (Hd & _ & _).
  split; [exact (Ha [0; 1; 2]%nat eq_refl)|].
  split; [apply (Hc [0; 1]%nat 2%nat); simpl; lia|].
  exact (Hd [0; 1; 2]%nat eq_refl).
Defined.

Lemma counter_status_implications_witness :
  0 < successThreshold example_config /\
  exists e',
    hysteresis_seq (initial_health example_config) [true; false; false] = Ret e' /\
    healthy e' <> None /\ implications 3 e'.
Proof.
  assert (H0 : 0 < successThreshold example_config) by (simpl; lia).
  split; [exact H0|].
  destruct (counter_status_implications example_config exact H0) as [H _].
  apply (H [true; false; false]). discriminate.
Defined.

Lemma failed_checks_bounded_witness :
  0 < successThreshold example_config /\
  exists e' c,
    hysteresis_seq (initial_health example_config) [false; true; true] = Ret e' /\
    failed_checks e' = Some c /\ 0 <= c <= 3.
Proof.
  assert (H0 : 0 < successThreshold example_config) by (simpl; lia).
  split; [exact H0|].
  destruct (failed_checks_bounded example_config exact H0) as [H _].
  apply (H [false; true; true]). discriminate.
Defined.

Lemma failover_run_wf : Forall event_wf failover_run.
Proof. unfold failover_run. repeat constructor. Qed.

Lemma failover_site_is_check_site : check_site example_config exact failover_site.
Proof.
  exists failover_run, "10.0.0.1", false, failover_table,
         (known 3 true 2), (known 3 false 3).
  split; [exact failover_run_wf|].
  split; [reflexivity|]. split; [simpl; auto|].
  split; [reflexivity|]. split; reflexivity.
Qed.

Lemma failover_site_conditions :
  fast_path_conditions failover_site
    [("10.0.0.1", known 3 false 3); ("10.0.0.2", known 3 true 0)].
Proof.
  split; [repeat constructor; discriminate|].
  split; [reflexivity|]. split; [unfold partial_outage; simpl; lia|].
  intros a Ha. inversion Ha; subst a. simpl.
  intros [E|[]]. discriminate.
Qed.

Lemma reactive_fast_path_witness :
  check_site example_config exact failover_site /\
  turn_data failover_site
  = Some [("10.0.0.1", known 3 false 3); ("10.0.0.2", known 3 true 0)] /\
  exists a,
    check_current_server example_config 0 failover_site
    = Ret (set_turn_server failover_site a) /\
    In a (healthy_servers
            [("10.0.0.1", known 3 false 3); ("10.0.0.2", known 3 true 0)]) /\
    turn_server failover_site <> Some a.
Proof.
  split; [exact failover_site_is_check_site|]. split; [reflexivity|].
  destruct (reactive_fast_path example_config exact 0%nat failover_site _
              failover_site_is_check_site eq_refl) as [H _].
  exact (H failover_site_conditions).
Defined.



Lemma insufficient_data_exclusion_witness :
  process_metrics example_config [full_series; short_series]
  = Ret [("10.0.0.1", [Finite 7; Finite 9])] /\
  exists s, In s [full_series; short_series] /\
            endpoint_of example_config s = Some "10.0.0.1" /\
            samples s = [Finite 7; Finite 9] /\
            durationMinutes example_config <= Z.of_nat (length (samples s)).
Proof.
  assert (H : process_metrics example_config [full_series; short_series]
              = Ret [("10.0.0.1", [Finite 7; Finite 9])]) by reflexivity.
  split; [exact H|].
  destruct (insufficient_data_exclusion example_config exact
              [full_series; short_series]) as [_ Hspec].
  destruct (Hspec _ H) as [Hentry _].
  apply (Hentry "10.0.0.1" [Finite 7; Finite 9]). simpl. auto.
Defined.

Lemma metrics_failure_fallback_witness :
  String.eqb (algorithm example_config) "random" = false /\
  (2 <= length (healthy_servers
                  [("10.0.0.1", known 3 true 0); ("10.0.0.2", known 3 true 0)]))%nat /\
  exists g',
    lb_run_cycle example_config exact 1 (ResponseResult []) both_healthy
    = Ret g' /\
    turn_server g' = Some "10.0.0.2" /\
    turn_data g' = turn_data both_healthy.
Proof.
  assert (Hlen : (2 <= length (healthy_servers
                    [("10.0.0.1", known 3 true 0); ("10.0.0.2", known 3 true 0)]))%nat)
    by (simpl; lia).
  split; [reflexivity|]. split; [exact Hlen|].
  destruct (metrics_failure_fallback example_config exact 1%nat
              (ResponseResult []) both_healthy _ eq_refl eq_refl Hlen
              (or_intror (or_intror eq_refl)))
    as (_ & a & g' & Hrun & Hts & Htd & Hch & _).
  exists g'. split; [exact Hrun|]. split; [|exact Htd].
  vm_compute in Hch. inversion Hch; subst a. exact Hts.
Defined.

Lemma stray_series_unrecognized :
  Exists (unrecognized example_config) [full_series; stray_series].
Proof. apply Exists_cons_tl. apply Exists_cons_hd. reflexivity. Qed.

Lemma unrecognized_label_terminates_witness :
  String.eqb (algorithm example_config) "random" = false /\
  Exists (unrecognized example_config) [full_series; stray_series] /\
  lb_run_cycle example_config exact 0
               (ResponseResult [full_series; stray_series]) both_healthy
  = Raise ConfigError.
Proof.
  assert (Hlen : (2 <= length (healthy_servers
                    [("10.0.0.1", known 3 true 0); ("10.0.0.2", known 3 true 0)]))%nat)
    by (simpl; lia).
  split; [reflexivity|]. split; [exact stray_series_unrecognized|].
  destruct (unrecognized_label_terminates example_config exact 0%nat
              both_healthy _ [full_series; stray_series]
              eq_refl eq_refl Hlen stray_series_unrecognized) as (_ & H & _).
  exact H.
Defined.

Lemma total_outage_liveness_witness :
  registry example_config <> [] /\
  healthy_servers
    [("10.0.0.1", known 3 false 3); ("10.0.0.2", known 3 false 3)] = [] /\
  exists a,
    In a (registry example_config) /\
    lb_run_cycle example_config exact 1 RequestFailed both_unhealthy
    = Ret (set_turn_server both_unhealthy a).
Proof.
  assert (Hne : registry example_config <> []) by discriminate.
  split; [exact Hne|]. split; [reflexivity|].
  destruct (total_outage_liveness example_config exact 1%nat RequestFailed
              both_unhealthy _ Hne eq_refl eq_refl)
    as (a & Hin & _ & _ & Hc & _).
  exists a. split; [exact Hin | exact Hc].
Defined.

Lemma active_endpoint_in_registry_witness :
  Forall event_wf failover_run /\
  forall a,
    turn_server (globals (exec example_config exact failover_run start)) = Some a ->
    In a (registry example_config).
Proof.
  split; [exact failover_run_wf|].
  destruct (active_endpoint_in_registry example_config exact failover_run
              failover_run_wf) as [H _].
  exact H.
Defined.

(** * Further properties of the code *)

(** ** The table of [HealthCheck.run] *)

Lemma fold_set_get {V : Type} (v : V) (a : string) (l : list string) :
  forall acc : Dict.t V,
  Dict.get a (fold_left (fun d server => Dict.set server v d) l acc) =
  if str_in a l then Some v else Dict.get a acc.
Proof.
  induction l as [|x l IH]; intros acc; simpl; auto.
  rewrite IH. destruct (String.eqb_spec a x).
  - subst x. simpl. rewrite get_set_same. destruct (str_in a l); reflexivity.
  - simpl. rewrite get_set_other by assumption. reflexivity.
Qed.

Lemma NoDup_keys_set {V : Type} (k : string) (v : V) (d : Dict.t V) :
  NoDup (Dict.keys d) -> NoDup (Dict.keys (Dict.set k v d)).
Proof.
  induction d as [|[k' v'] d IH]; simpl; intros Hnd.
  - constructor; [simpl; tauto | constructor].
  - inversion Hnd as [|? ? Hnot Hnd']; subst.
    destruct (String.eqb_spec k k'); simpl.
    + constructor; assumption.
    + constructor; [|auto].
      intros Hin. apply keys_set in Hin. destruct Hin as [E|Hin]; auto.
Qed.

Lemma fold_set_NoDup {V : Type} (v : V) (l : list string) :
  forall acc : Dict.t V, NoDup (Dict.keys acc) ->
  NoDup (Dict.keys (fold_left (fun d server => Dict.set server v d) l acc)).
Proof.
  induction l as [|x l IH]; intros acc Hacc; simpl; auto.
  apply IH. now apply NoDup_keys_set.
Qed.

(** X1. The table [HealthCheck.run] builds has one record per distinct
    address of the registry: looking up an address of the registry gives the
    Unknown record with the configured threshold, looking up anything else
    gives nothing, and no key occurs twice, also when the address mapping
    names one address several times. *)
Theorem initial_turn_data_lookup (config : Config) (a : string) :
  Dict.get a (initial_turn_data config) =
  (if str_in a (registry config) then Some (initial_health config) else None) /\
  NoDup (Dict.keys (initial_turn_data config)).
Proof.
  unfold initial_turn_data. split.
  - rewrite fold_set_get. reflexivity.
  - apply fold_set_NoDup. constructor.
Qed.

(** ** What a probe changes *)

Lemma update_failed_checks_fields (e e' : EndpointHealth) (b : bool) :
  update_failed_checks e b = Ret e' ->
  initial e' = initial e /\ success_th e' = success_th e.
Proof.
  unfold update_failed_checks.
  destruct (healthy e) as [h|]; destruct b;
    try destruct (failed_checks e) as [c|]; try discriminate;
    repeat match goal with
           | |- context [if ?c then _ else _] => destruct c
           end;
    intros H; inversion H; subst; auto.
Qed.

Lemma update_healthy_fields (e : EndpointHealth) :
  initial (update_healthy e) = initial e /\
  success_th (update_healthy e) = success_th e.
Proof.
  unfold update_healthy. destruct (failed_checks e) as [c|]; auto.
  repeat match goal with
         | |- context [if ?c then _ else _] => destruct c
         end; auto.
Qed.

Lemma hysteresis_fields (e e' : EndpointHealth) (b : bool) :
  hysteresis e b = Ret e' ->
  initial e' = initial e /\ success_th e' = success_th e.
Proof.
  unfold hysteresis. intros H. apply bind_ret in H.
  destruct H as [e1 [H1 H]]. inversion H; subst.
  destruct (update_failed_checks_fields _ _ _ H1) as [Hi Hs].
  destruct (update_healthy_fields e1) as [Hi' Hs']. split; congruence.
Qed.

Lemma process_health_check_inv (config : Config) (server : string) (b : bool)
      (r : nat) (g g' : Globals) :
  process_health_check config server b r g = Ret g' ->
  exists d e e',
    turn_data g = Some d /\ Dict.get server d = Some e /\
    hysteresis e b = Ret e' /\
    check_current_server config r (set_turn_data g (Dict.set server e' d)) = Ret g' /\
    turn_data g' = Some (Dict.set server e' d).
Proof.
  unfold process_health_check. intros H.
  destruct (turn_data g) as [d|] eqn:Hd; [|discriminate]. simpl in H.
  destruct (Dict.get server d) as [e|] eqn:He; [|discriminate]. simpl in H.
  destruct (hysteresis e b) as [e'|x] eqn:Hh; [|discriminate]. simpl in H.
  exists d, e, e'. repeat split; auto.
  apply check_current_server_data in H. rewrite H. reflexivity.
Qed.

(** X3. A processed probe touches the record of the probed endpoint only:
    every other endpoint keeps its record, the table keeps its keys in their
    order, and the probed record keeps its [initial] and [success_th]. *)
Theorem process_health_check_frame (config : Config) (server : string)
        (b : bool) (r : nat) (g g' : Globals)
        (d d' : Dict.t EndpointHealth) :
  process_health_check config server b r g = Ret g' ->
  turn_data g = Some d -> turn_data g' = Some d' ->
  (forall k, k <> server -> Dict.get k d' = Dict.get k d) /\
  Dict.keys d' = Dict.keys d /\
  (exists e e', Dict.get server d = Some e /\ Dict.get server d' = Some e' /\
                hysteresis e b = Ret e' /\
                initial e' = initial e /\ success_th e' = success_th e).
Proof.
  intros H Hd Hd'.
  destruct (process_health_check_inv _ _ _ _ _ _ H)
    as (d0 & e & e' & Hd0 & He & Hh & _ & Hd1).
  assert (d0 = d) by congruence. subst d0.
  assert (d' = Dict.set server e' d) by congruence. subst d'.
  split; [intros k Hk; now apply get_set_other|].
  split; [eapply keys_set_present; eauto|].
  exists e, e'. split; [assumption|]. split; [apply get_set_same|].
  split; [assumption|]. eapply hysteresis_fields; eauto.
Qed.

Lemma process_health_check_frame_witness :
  process_health_check example_config "10.0.0.1" false 0 both_healthy
  = Ret {| turn_server := Some "10.0.0.1";
           turn_data := Some [("10.0.0.1", known 3 true 1);
                              ("10.0.0.2", known 3 true 0)] |} /\
  forall k, k <> "10.0.0.1" ->
    Dict.get k [("10.0.0.1", known 3 true 1); ("10.0.0.2", known 3 true 0)]
    = Dict.get k [("10.0.0.1", known 3 true 0); ("10.0.0.2", known 3 true 0)].
Proof.
  assert (H : process_health_check example_config "10.0.0.1" false 0 both_healthy
              = Ret {| turn_server := Some "10.0.0.1";
                       turn_data := Some [("10.0.0.1", known 3 true 1);
                                          ("10.0.0.2", known 3 true 0)] |})
    by reflexivity.
  split; [exact H|].
  destruct (process_health_check_frame example_config "10.0.0.1" false 0%nat
              both_healthy _ _ _ H eq_refl eq_refl) as [Hk _].
  exact Hk.
Defined.

(** ** The table in a run *)

Lemma get_None {V : Type} (k : string) (d : Dict.t V) :
  ~ In k (Dict.keys d) -> Dict.get k d = None.
Proof.
  induction d as [|[k' v'] d IH]; simpl; auto.
  intros Hn. destruct (String.eqb_spec k k'); [subst; tauto | apply IH; tauto].
Qed.

Lemma In_get_NoDup {V : Type} (k : string) (v : V) (d : Dict.t V) :
  NoDup (Dict.keys d) -> In (k, v) d -> Dict.get k d = Some v.
Proof.
  induction d as [|[k' v'] d IH]; simpl; [tauto|].
  intros Hnd Hin. inversion Hnd as [|? ? Hnot Hnd']; subst.
  destruct Hin as [E|Hin].
  - inversion E; subst. now rewrite String.eqb_refl.
  - destruct (String.eqb_spec k k'); [|auto].
    subst k'. exfalso. apply Hnot. unfold Dict.keys. apply in_map_iff.
    now exists (k, v).
Qed.

Lemma table_inv_step (config : Config) (float_of_fraction : Q -> Q)
      (s : System) (ev : event) :
  table_inv_holds config s ->
  table_inv_holds config (step config float_of_fraction s ev).
Proof.
  intros Hs. pose proof Hs as (Hhc & Htab).
  destruct ev as [|server b r|r resp]; simpl.
  - case_eq (turn_data (globals s)); [intros d Hd; exact Hs | intros Hd].
    rewrite Hhc. split; [assumption|]. simpl. intros d H. inversion H; subst.
    split; [|reflexivity].
    apply initial_turn_data_ok. apply consistent_initial.
  - case_eq (turn_data (globals s)); [intros d Hd | intros Hd; exact Hs].
    rewrite Hhc. simpl.
    destruct (str_in server (registry config)) eqn:Ein; [|exact Hs].
    apply str_in_In in Ein. destruct (Htab d Hd) as [Hok Hkeys].
    destruct (probe_step config _ (consistent_step (successThreshold config))
                server b r (globals s) d Hok Hd Ein)
      as (g' & e & e' & Hg' & He & Hh & Pe' & Hdet & Hd' & _).
    rewrite Hg'. split; [assumption|]. simpl. intros d1 H.
    rewrite Hd' in H. inversion H; subst d1. destruct Hok as [Hk HP].
    split; [split|].
    + intros k. rewrite keys_set. split.
      * intros [->|Hin]; [assumption | now apply Hk].
      * intros Hin. right. now apply Hk.
    + apply Forall_set; assumption.
    + rewrite (keys_set_present server e' e d He). assumption.
  - destruct (lb_alive s); [|exact Hs].
    destruct (waiting (globals s)); [exact Hs|].
    destruct (lb_run_cycle config float_of_fraction r resp (globals s))
      as [g'|x] eqn:Ec; [|exact Hs].
    apply lb_run_cycle_sets in Ec. destruct Ec as [a ->].
    split; [assumption|]. simpl. exact Htab.
Qed.

Lemma table_inv_exec (config : Config) (float_of_fraction : Q -> Q)
      (evs : list event) :
  forall s, table_inv_holds config s ->
  table_inv_holds config (exec config float_of_fraction evs s).
Proof.
  induction evs as [|ev evs IH]; intros s Hs; simpl; auto.
  apply IH. now apply table_inv_step.
Qed.

Lemma table_inv_run (config : Config) (float_of_fraction : Q -> Q)
      (evs : list event) :
  table_inv_holds config (exec config float_of_fraction evs start).
Proof.
  apply table_inv_exec. split; [reflexivity|]. simpl. intros d H. discriminate.
Qed.

(** X2. Throughout a run, whatever the events, the health table keeps the
    keys it was built with, in their order: no endpoint is added, dropped or
    moved; and every record keeps [initial] 0 and the configured
    [success_th]. *)
Theorem table_keys_fixed (config : Config) (float_of_fraction : Q -> Q)
        (evs : list event) (d : Dict.t EndpointHealth) :
  turn_data (globals (exec config float_of_fraction evs start)) = Some d ->
  Dict.keys d = Dict.keys (initial_turn_data config) /\
  Forall (fun item => initial (snd item) = 0 /\
                      success_th (snd item) = successThreshold config) d.
Proof.
  intros Hd.
  destruct (table_inv_run config float_of_fraction evs) as [_ Htab].
  destruct (Htab d Hd) as [[_ HP] Hkeys]. split; [assumption|].
  eapply Forall_impl; [|exact HP]. intros item (Hi & Hs & _). auto.
Qed.

Lemma table_keys_fixed_witness :
  turn_data (globals (exec example_config exact failover_run start))
  = Some failover_table /\
  Dict.keys failover_table = Dict.keys (initial_turn_data example_config).
Proof.
  split; [reflexivity|].
  destruct (table_keys_fixed example_config exact failover_run failover_table
              eq_refl) as [H _].
  exact H.
Defined.

(** X4. In a run, once the table is built, processing a probe returns
    normally for every address of the registry, whatever the probe result,
    so the health-check thread never dies of it; for a string that is not an
    address of the registry it raises [KeyError]. *)
Theorem process_health_check_total_in_run (config : Config)
        (float_of_fraction : Q -> Q) (evs : list event)
        (d : Dict.t EndpointHealth) (server : string) (b : bool) (r : nat) :
  turn_data (globals (exec config float_of_fraction evs start)) = Some d ->
  hc_alive (exec config float_of_fraction evs start) = true /\
  (In server (registry config) ->
   exists g', process_health_check config server b r
                (globals (exec config float_of_fraction evs start)) = Ret g') /\
  (~ In server (registry config) ->
   process_health_check config server b r
     (globals (exec config float_of_fraction evs start)) = Raise KeyError).
Proof.
  intros Hd.
  destruct (table_inv_run config float_of_fraction evs) as [Hhc Htab].
  destruct (Htab d Hd) as [Hok _]. split; [assumption|]. split.
  - intros Hin.
    destruct (probe_step config _ (consistent_step (successThreshold config))
                server b r _ d Hok Hd Hin) as (g' & _ & _ & Hg' & _).
    eauto.
  - intros Hn. unfold process_health_check. rewrite Hd. simpl.
    destruct Hok as [Hk _]. rewrite get_None; [reflexivity|].
    intros Hin. apply Hn. now apply Hk.
Qed.

Lemma process_health_check_total_in_run_witness :
  turn_data (globals (exec example_config exact failover_run start))
  = Some failover_table /\
  (exists g', process_health_check example_config "10.0.0.2" false 5
                (globals (exec example_config exact failover_run start)) = Ret g') /\
  process_health_check example_config "10.9.9.9" true 5
    (globals (exec example_config exact failover_run start)) = Raise KeyError.
Proof.
  split; [reflexivity|].
  destruct (process_health_check_total_in_run example_config exact failover_run
              failover_table "10.0.0.2" false 5%nat eq_refl) as (_ & Hyes & _).
  destruct (process_health_check_total_in_run example_config exact failover_run
              failover_table "10.9.9.9" true 5%nat eq_refl) as (_ & _ & Hno).
  split.
  - apply Hyes. simpl. auto.
  - apply Hno. simpl. intros [E|[E|[]]]; discriminate.
Defined.

(** ** Consecutive results, whatever came before *)

Lemma stays_unhealthy (N : Z) (k : nat) :
  0 < N ->
  hysteresis_seq (known N false N) (repeat false k) = Ret (known N false N).
Proof.
  intros HN. induction k as [|k IH]; [reflexivity|].
  cbn [repeat hysteresis_seq]. rewrite fail_unhealthy by lia.
  cbn [bind]. assumption.
Qed.

Lemma stays_healthy (N : Z) (k : nat) :
  0 < N ->
  hysteresis_seq (known N true 0) (repeat true k) = Ret (known N true 0).
Proof.
  intros HN. induction k as [|k IH]; [reflexivity|].
  cbn [repeat hysteresis_seq]. rewrite pass_healthy by lia.
  cbn [bind]. assumption.
Qed.

Lemma fails_converge (N : Z) (e : EndpointHealth) (k : nat) :
  0 < N -> damped N e -> N <= Z.of_nat k ->
  hysteresis_seq e (repeat false k) = Ret (known N false N).
Proof.
  intros HN. destruct e as [i th fc h]. unfold damped. simpl.
  intros (-> & -> & H) Hk.
  destruct h as [[|]|]; destruct fc as [c|]; try contradiction.
  - (* Healthy: N - c failures reach the threshold *)
    change {| initial := 0; success_th := N; failed_checks := Some c;
              healthy := Some true |} with (known N true c).
    replace k with (Z.to_nat (N - c) + (k - Z.to_nat (N - c)))%nat by lia.
    rewrite repeat_app, hysteresis_seq_app.
    rewrite fails_from_healthy by lia.
    destruct (Z.ltb_spec (c + Z.of_nat (Z.to_nat (N - c))) N); [lia|].
    cbn [bind]. now apply stays_unhealthy.
  - (* Unhealthy: the first failure puts the counter back to N *)
    change {| initial := 0; success_th := N; failed_checks := Some c;
              healthy := Some false |} with (known N false c).
    destruct k as [|k]; [simpl in Hk; lia|]. cbn [repeat hysteresis_seq].
    rewrite fail_unhealthy by lia. cbn [bind]. now apply stays_unhealthy.
  - (* Unknown *)
    destruct k as [|k]; [simpl in Hk; lia|]. cbn [repeat hysteresis_seq].
    rewrite first_fail by lia. cbn [bind]. now apply stays_unhealthy.
Qed.

Lemma passes_converge (N : Z) (e : EndpointHealth) (k : nat) :
  0 < N -> damped N e -> N <= Z.of_nat k ->
  hysteresis_seq e (repeat true k) = Ret (known N true 0).
Proof.
  intros HN. destruct e as [i th fc h]. unfold damped. simpl.
  intros (-> & -> & H) Hk.
  destruct h as [[|]|]; destruct fc as [c|]; try contradiction.
  - change {| initial := 0; success_th := N; failed_checks := Some c;
              healthy := Some true |} with (known N true c).
    destruct k as [|k]; [simpl in Hk; lia|]. cbn [repeat hysteresis_seq].
    rewrite pass_healthy by lia. cbn [bind]. now apply stays_healthy.
  - change {| initial := 0; success_th := N; failed_checks := Some c;
              healthy := Some false |} with (known N false c).
    replace k with (Z.to_nat c + (k - Z.to_nat c))%nat by lia.
    rewrite repeat_app, hysteresis_seq_app.
    rewrite passes_from_unhealthy by lia.
    destruct (Z.ltb_spec (Z.of_nat (Z.to_nat c)) c); [lia|].
    cbn [bind]. now apply stays_healthy.
  - destruct k as [|k]; [simpl in Hk; lia|]. cbn [repeat hysteresis_seq].
    rewrite first_pass. cbn [bind]. now apply stays_healthy.
Qed.

(** X5. With a positive threshold N, whatever probe results an endpoint has
    had since the start, N or more consecutive failed probes leave it
    Unhealthy with counter N, and N or more consecutive successful probes
    leave it Healthy with counter 0. *)
Theorem consecutive_results_converge (config : Config) (bs : list bool)
        (k : nat) :
  0 < successThreshold config ->
  successThreshold config <= Z.of_nat k ->
  hysteresis_seq (initial_health config) (bs ++ repeat false k)
  = Ret (known (successThreshold config) false (successThreshold config)) /\
  hysteresis_seq (initial_health config) (bs ++ repeat true k)
  = Ret (known (successThreshold config) true 0).
Proof.
  intros HN Hk.
  destruct (damped_seq _ bs HN _ (damped_initial config)) as [e [He [De _]]].
  rewrite !hysteresis_seq_app, He. simpl. split.
  - now apply fails_converge.
  - now apply passes_converge.
Qed.

Lemma consecutive_results_converge_witness :
  0 < successThreshold example_config /\
  successThreshold example_config <= Z.of_nat 3 /\
  hysteresis_seq (initial_health example_config)
                 ([true; false; false; true; false] ++ repeat false 3)
  = Ret (known 3 false 3).
Proof.
  assert (H0 : 0 < successThreshold example_config) by (simpl; lia).
  assert (H1 : successThreshold example_config <= Z.of_nat 3) by (simpl; lia).
  split; [exact H0|]. split; [exact H1|].
  destruct (consecutive_results_converge example_config
              [true; false; false; true; false] 3 H0 H1) as [H _].
  exact H.
Defined.

(** ** Thresholds that are not positive *)

Lemma zero_threshold_stays (bs : list bool) :
  hysteresis_seq (known 0 true 0) bs = Ret (known 0 true 0).
Proof.
  induction bs as [|b bs IH]; simpl; auto.
  assert (H : hysteresis (known 0 true 0) b = Ret (known 0 true 0))
    by (destruct b; reflexivity).
  rewrite H. simpl. assumption.
Qed.

Lemma frozen_step (N : Z) (h b : bool) (c : Z) :
  N < 0 -> (if h then 0 <= c else c <= N) ->
  exists c', hysteresis (known N h c) b = Ret (known N h c') /\
             (if h then 0 <= c' else c' <= N).
Proof.
  intros HN Hc. destruct h, b.
  - exists 0. split; [hyst | lia].
  - exists (c + 1). split; [hyst | lia].
  - exists (c - 1). split; [hyst | lia].
  - exists N. split; [hyst | lia].
Qed.

Lemma frozen_seq (N : Z) (h : bool) (bs : list bool) :
  N < 0 ->
  forall c, (if h then 0 <= c else c <= N) ->
  exists c', hysteresis_seq (known N h c) bs = Ret (known N h c').
Proof.
  intros HN. induction bs as [|b bs IH]; intros c Hc; simpl; [eauto|].
  destruct (frozen_step N h b c HN Hc) as [c1 [H1 Hc1]].
  rewrite H1. simpl. now apply IH.
Qed.

(** X6. A threshold that is not positive freezes the status at the first
    probe: with threshold 0 every endpoint is Healthy with counter 0 after
    any probe results, failures included; with a negative threshold an
    endpoint keeps for ever the status its first probe gave it. *)
Theorem nonpositive_threshold_freezes (config : Config) (b : bool)
        (bs : list bool) :
  (successThreshold config = 0 ->
   hysteresis_seq (initial_health config) (b :: bs) = Ret (known 0 true 0)) /\
  (successThreshold config < 0 ->
   exists c, hysteresis_seq (initial_health config) (b :: bs)
             = Ret (known (successThreshold config) b c)).
Proof.
  unfold initial_health. split.
  - intros ->. simpl.
    assert (H : hysteresis {| initial := 0; success_th := 0;
                              failed_checks := None; healthy := None |} b
                = Ret (known 0 true 0)) by (destruct b; reflexivity).
    rewrite H. simpl. apply zero_threshold_stays.
  - intros HN. simpl. set (N := successThreshold config) in *.
    destruct b.
    + rewrite first_pass. simpl. apply frozen_seq; [assumption | lia].
    + assert (H : hysteresis {| initial := 0; success_th := N;
                                failed_checks := None; healthy := None |} false
                  = Ret (known N false N)) by hyst.
      rewrite H. simpl. apply frozen_seq; [assumption | lia].
Qed.

Lemma nonpositive_threshold_freezes_witness :
  successThreshold zero_threshold = 0 /\
  hysteresis_seq (initial_health zero_threshold) [false; false; false]
  = Ret (known 0 true 0).
Proof.
  split; [reflexivity|].
  destruct (nonpositive_threshold_freezes zero_threshold false [false; false])
    as [H _].
  exact (H eq_refl).
Defined.

(** ** One pass of probes *)

Lemma main_tcp_spec (config : Config)
      (completions : list (string * bool * nat)) :
  forall g d,
  table_ok config (consistent (successThreshold config)) d ->
  turn_data g = Some d ->
  (forall a, In a (servers_of completions) -> In a (registry config)) ->
  exists g' d',
    main_tcp config completions g = Ret g' /\ turn_data g' = Some d' /\
    table_ok config (consistent (successThreshold config)) d' /\
    Dict.keys d' = Dict.keys d /\
    (forall a e, Dict.get a d' = Some e ->
       In a (servers_of completions) \/
       (exists e0, Dict.get a d = Some e0 /\ healthy e0 <> None) ->
       healthy e <> None).
Proof.
  induction completions as [|[[server b] r] rest IH]; intros g d Hok Hd Hreg.
  - exists g, d. simpl. repeat split; try apply Hok; auto.
    intros a e He [[]|[e0 [He0 Hn]]]. congruence.
  - assert (Hin : In server (registry config)) by (apply Hreg; simpl; auto).
    destruct (probe_step config _ (consistent_step (successThreshold config))
                server b r g d Hok Hd Hin)
      as (g1 & e & e' & Hg1 & He & Hh & Pe' & Hdet & Hd1 & _).
    assert (Hok1 : table_ok config (consistent (successThreshold config))
                            (Dict.set server e' d)).
    { destruct Hok as [Hk HP]. split.
      - intros k. rewrite keys_set. split.
        + intros [->|Hk']; [assumption | now apply Hk].
        + intros Hk'. right. now apply Hk.
      - apply Forall_set; assumption. }
    destruct (IH g1 (Dict.set server e' d) Hok1 Hd1)
      as (g' & d' & Hg' & Hd' & Hok' & Hkeys' & Hdet').
    { intros a Ha. apply Hreg. simpl. auto. }
    exists g', d'. split.
    { simpl. unfold _get_health_tcp.
      assert (E : (if b then process_health_check config server true r g
                   else process_health_check config server false r g)
                  = process_health_check config server b r g)
        by (destruct b; reflexivity).
      rewrite E, Hg1. simpl. assumption. }
    split; [assumption|]. split; [assumption|].
    split; [rewrite Hkeys'; eapply keys_set_present; eauto|].
    intros a e1 He1 Hcase. apply (Hdet' a e1 He1).
    destruct (String.eqb_spec a server) as [->|Hne].
    + right. exists e'. split; [apply get_set_same | assumption].
    + destruct Hcase as [[E|Hrest]|[e0 [He0 Hn]]].
      * simpl in E. congruence.
      * now left.
      * right. exists e0. split; [|assumption].
        rewrite get_set_other; assumption.
Qed.

(** X7. One pass of probes over a table built for the registry, the probes
    completing in any order and with any results, returns normally and
    leaves no endpoint Unknown, so that the wait of [LoadBalancer.run] is
    over after the first pass; the pass keeps the keys of the table. *)
Theorem first_pass_ends_wait (config : Config)
        (completions : list (string * bool * nat)) (g : Globals)
        (d : Dict.t EndpointHealth) :
  table_ok config (consistent (successThreshold config)) d ->
  NoDup (Dict.keys d) ->
  turn_data g = Some d ->
  (forall a, In a (servers_of completions) <-> In a (registry config)) ->
  exists g' d',
    main_tcp config completions g = Ret g' /\ turn_data g' = Some d' /\
    Dict.keys d' = Dict.keys d /\ determined d' /\ waiting g' = false.
Proof.
  intros Hok Hnd Hd Hperm.
  destruct (main_tcp_spec config completions g d Hok Hd)
    as (g' & d' & Hg' & Hd' & Hok' & Hkeys' & Hdet').
  { intros a Ha. now apply Hperm. }
  assert (Hdet : determined d').
  { unfold determined. apply Forall_forall. intros [a e] Hin. simpl.
    apply (Hdet' a e).
    - apply In_get_NoDup; [now rewrite Hkeys' | assumption].
    - left. apply Hperm. destruct Hok' as [Hk _]. apply Hk.
      unfold Dict.keys. apply in_map_iff. now exists (a, e). }
  exists g', d'. repeat split; auto.
  apply waiting_false. eauto.
Qed.

Lemma first_pass_ends_wait_witness :
  table_ok example_config (consistent (successThreshold example_config))
           (initial_turn_data example_config) /\
  NoDup (Dict.keys (initial_turn_data example_config)) /\
  waiting table_built = true /\
  exists g' d',
    main_tcp example_config [("10.0.0.2", false, 0%nat); ("10.0.0.1", true, 1%nat)]
             table_built = Ret g' /\
    turn_data g' = Some d' /\
    Dict.keys d' = Dict.keys (initial_turn_data example_config) /\
    determined d' /\ waiting g' = false.
Proof.
  assert (H1 : table_ok example_config
                 (consistent (successThreshold example_config))
                 (initial_turn_data example_config))
    by (apply initial_turn_data_ok; apply consistent_initial).
  assert (H2 : NoDup (Dict.keys (initial_turn_data example_config)))
    by (apply fold_set_NoDup; constructor).
  split; [exact H1|]. split; [exact H2|]. split; [reflexivity|].
  apply (first_pass_ends_wait example_config
           [("10.0.0.2", false, 0%nat); ("10.0.0.1", true, 1%nat)]
           table_built _ H1 H2 eq_refl).
  intros a. simpl. tauto.
Defined.

(** ** After a processed probe *)

(** X8. When a processed probe leaves every endpoint determined, an active
    endpoint set and at least one but not every endpoint Unhealthy, the
    active endpoint it leaves is a Healthy one: the probe processing never
    ends with an active endpoint that is not Healthy while a Healthy one
    exists. *)
Theorem probe_leaves_healthy_active (config : Config) (server : string)
        (b : bool) (r : nat) (g g' : Globals) (d' : Dict.t EndpointHealth) :
  process_health_check config server b r g = Ret g' ->
  turn_data g' = Some d' ->
  determined d' ->
  server_truth (turn_server g') = true ->
  partial_outage d' ->
  exists a, turn_server g' = Some a /\ In a (healthy_servers d').
Proof.
  intros H Hd' Hdet Ht Hp.
  destruct (process_health_check_inv _ _ _ _ _ _ H)
    as (d & e & e' & Hd & He & Hh & Hc & Hd1).
  assert (d' = Dict.set server e' d) by congruence. subst d'.
  set (d1 := Dict.set server e' d) in *.
  set (g1 := set_turn_data g d1) in *.
  assert (Hne : healthy_servers d1 <> []).
  { pose proof (determined_count d1 Hdet) as Hcount.
    unfold partial_outage in Hp.
    destruct (healthy_servers d1); [simpl in Hcount; lia | discriminate]. }
  assert (Hfb : forall g2, random_healthy_server config r g1 = Ret g2 ->
                exists a, turn_server g2 = Some a /\ In a (healthy_servers d1)).
  { intros g2 H2.
    destruct (random_healthy_server_inv config r g1 g2 d1 eq_refl H2)
      as [a [-> [Ha _]]].
    exists a. split; [reflexivity | auto]. }
  destruct (check_current_server_inv _ _ _ _ Hc) as [->|Hr]; [|now apply Hfb].
  destruct (server_truth_some _ Ht) as [a Ha].
  destruct (str_in a (healthy_servers d1)) eqn:E.
  - exists a. split; [assumption | now apply str_in_In].
  - destruct (check_current_server_spec config r g1 d1 eq_refl) as [Hyes _].
    rewrite Hyes in Hc; [now apply Hfb | assumption | assumption |].
    intros a' Ha' Hin. assert (a' = a) by congruence. subst a'.
    apply str_in_In in Hin. congruence.
Qed.

Lemma probe_leaves_healthy_active_witness :
  process_health_check example_config "10.0.0.1" false 0
    {| turn_server := Some "10.0.0.1"; turn_data := Some failover_table |}
  = Ret (set_turn_server failover_site "10.0.0.2") /\
  exists a, turn_server (set_turn_server failover_site "10.0.0.2") = Some a /\
            In a (healthy_servers
                    [("10.0.0.1", known 3 false 3); ("10.0.0.2", known 3 true 0)]).
Proof.
  assert (H : process_health_check example_config "10.0.0.1" false 0
                {| turn_server := Some "10.0.0.1";
                   turn_data := Some failover_table |}
              = Ret (set_turn_server failover_site "10.0.0.2")) by reflexivity.
  split; [exact H|].
  apply (probe_leaves_healthy_active example_config "10.0.0.1" false 0%nat
           _ _ _ H eq_refl).
  - repeat constructor; discriminate.
  - reflexivity.
  - unfold partial_outage. simpl. lia.
Defined.

(** ** The status API *)

(** X9. In a run, the health endpoint answers "healthy" with status 200
    only when no endpoint is Unknown any more and the active endpoint is an
    address of the registry; as long as one endpoint has not been probed it
    answers "unhealthy" with status 500. *)
Theorem health_needs_first_pass (config : Config) (float_of_fraction : Q -> Q)
        (evs : list event) :
  Forall event_wf evs ->
  let g := globals (exec config float_of_fraction evs start) in
  (get_api_health g = ("healthy", 200) ->
   waiting g = false /\
   exists a, turn_server g = Some a /\ In a (registry config)) /\
  (waiting g = true -> get_api_health g = ("unhealthy", 500)).
Proof.
  intros Hwf g.
  destruct (reachable_consistent config float_of_fraction evs Hwf)
    as (_ & _ & Hsrv). fold g in Hsrv.
  assert (Hyes : server_truth (turn_server g) = true ->
                 waiting g = false /\
                 exists a, turn_server g = Some a /\ In a (registry config)).
  { intros Ht. destruct (server_truth_some _ Ht) as [a Ha].
    destruct (Hsrv a Ha) as [Hin Hdet]. split.
    - now apply waiting_false.
    - eauto. }
  unfold get_api_health. split.
  - destruct (server_truth (turn_server g)); [auto | discriminate].
  - intros Hw. destruct (server_truth (turn_server g)); [|reflexivity].
    destruct (Hyes eq_refl) as [Hw' _]. congruence.
Qed.

Lemma health_needs_first_pass_witness :
  Forall event_wf [HcStart; HcProbe "10.0.0.1" true 0; LbCycle 0 RequestFailed] /\
  waiting (globals (exec example_config exact
                      [HcStart; HcProbe "10.0.0.1" true 0; LbCycle 0 RequestFailed]
                      start)) = true /\
  get_api_health (globals (exec example_config exact
                      [HcStart; HcProbe "10.0.0.1" true 0; LbCycle 0 RequestFailed]
                      start)) = ("unhealthy", 500).
Proof.
  assert (Hwf : Forall event_wf
                  [HcStart; HcProbe "10.0.0.1" true 0; LbCycle 0 RequestFailed])
    by (repeat constructor).
  split; [exact Hwf|]. split; [reflexivity|].
  destruct (health_needs_first_pass example_config exact _ Hwf) as [_ H].
  exact (H eq_refl).
Defined.

(** X10. When no address of the registry is the empty string, the health
    endpoint never goes back: once it has answered "healthy" in a run, it
    answers "healthy" in every later state of the run. *)
Theorem health_never_goes_back (config : Config) (float_of_fraction : Q -> Q)
        (evs evs' : list event) :
  ~ In "" (registry config) ->
  Forall event_wf evs -> Forall event_wf evs' ->
  get_api_health (globals (exec config float_of_fraction evs start))
  = ("healthy", 200) ->
  get_api_health (globals (exec config float_of_fraction (evs ++ evs') start))
  = ("healthy", 200).
Proof.
  intros Hno Hwf Hwf' Hh.
  assert (Hts : turn_server (globals (exec config float_of_fraction evs start))
                <> None).
  { unfold get_api_health in Hh.
    destruct (turn_server _); [discriminate | simpl in Hh; discriminate]. }
  pose proof (exec_keeps_server config float_of_fraction evs' _ Hts) as Hts'.
  rewrite <- exec_app in Hts'.
  assert (Hall : Forall event_wf (evs ++ evs'))
    by (apply Forall_app; auto).
  destruct (reachable_consistent config float_of_fraction _ Hall)
    as (_ & _ & Hsrv).
  unfold get_api_health.
  destruct (turn_server (globals (exec config float_of_fraction (evs ++ evs') start)))
    as [a|] eqn:Ea; [|congruence].
  destruct (Hsrv a eq_refl) as [Hin _]. simpl.
  destruct (String.eqb_spec a ""); [subst a; contradiction | reflexivity].
Qed.

Lemma health_never_goes_back_witness :
  ~ In "" (registry example_config) /\
  get_api_health (globals (exec example_config exact failover_run start))
  = ("healthy", 200) /\
  get_api_health
    (globals (exec example_config exact
                (failover_run ++ [HcProbe "10.0.0.1" false 0;
                                  HcProbe "10.0.0.2" false 0])
                start))
  = ("healthy", 200).
Proof.
  assert (Hno : ~ In "" (registry example_config))
    by (simpl; intros [E|[E|[]]]; discriminate).
  split; [exact Hno|]. split; [reflexivity|].
  apply (health_never_goes_back example_config exact failover_run
           [HcProbe "10.0.0.1" false 0; HcProbe "10.0.0.2" false 0]%nat Hno
           failover_run_wf).
  - repeat constructor.
  - reflexivity.
Defined.

(** ** The supervisor *)

(** X11. [check_threads] returns by the end of a series of polls exactly
    when one of the polls finds a dead thread; as long as the three threads
    are alive at every poll it keeps polling. *)
Theorem check_threads_spec (polls : list System) :
  check_threads polls = true <-> Exists dead polls.
Proof.
  unfold dead. induction polls as [|s polls IH]; simpl.
  - split; [discriminate | intros H; inversion H].
  - destruct (hc_alive s) eqn:E1; destruct (lb_alive s) eqn:E2;
      destruct (web_alive s) eqn:E3; simpl;
      try (split; [intros _; apply Exists_cons_hd; rewrite E1, E2, E3; auto
                  | reflexivity]).
    rewrite IH. split.
    + intros H. now apply Exists_cons_tl.
    + intros H. inversion H as [? ? Hd|]; subst; [|assumption].
      rewrite E1, E2, E3 in Hd. destruct Hd as [?|[?|?]]; discriminate.
Qed.

(** ** An empty registry *)

(** X12. With an empty address mapping the table is empty, so there is
    nothing to wait for, and the first pass of the selection loop raises
    [IndexError] in either mode, whatever the metrics source answers: the
    selection thread is dead after it and no endpoint is ever published. *)
Theorem empty_registry_kills_selection (config : Config)
        (float_of_fraction : Q -> Q) (r : nat) (resp : http_outcome) :
  registry config = [] ->
  initial_turn_data config = [] /\
  lb_run_cycle config float_of_fraction r resp
    {| turn_server := None; turn_data := Some [] |} = Raise IndexError /\
  lb_alive (exec config float_of_fraction [HcStart; LbCycle r resp] start)
  = false /\
  turn_server (globals (exec config float_of_fraction
                             [HcStart; LbCycle r resp] start)) = None.
Proof.
  intros Hreg.
  assert (Hinit : initial_turn_data config = []).
  { unfold initial_turn_data. now rewrite Hreg. }
  assert (Hc : lb_run_cycle config float_of_fraction r resp
                 {| turn_server := None; turn_data := Some [] |}
               = Raise IndexError).
  { unfold lb_run_cycle, random_healthy_server, random_server. simpl.
    rewrite Hreg, choice_nil.
    destruct (String.eqb (algorithm config) "random"); reflexivity. }
  split; [assumption|]. split; [assumption|].
  set (g0 := {| turn_server := None; turn_data := Some [] |}) in *.
  assert (E1 : step config float_of_fraction start HcStart
               = with_globals start g0).
  { unfold step, start, set_turn_data. cbn [globals turn_data hc_alive turn_server].
    rewrite Hinit. reflexivity. }
  assert (E2 : step config float_of_fraction (with_globals start g0)
                    (LbCycle r resp)
               = lb_dead (with_globals start g0)).
  { unfold step. cbn [with_globals start lb_alive globals].
    change (waiting g0) with false. cbv iota. rewrite Hc. reflexivity. }
  unfold exec. cbn [fold_left]. rewrite E1, E2. split; reflexivity.
Qed.

Lemma empty_registry_kills_selection_witness :
  registry no_relay = [] /\
  lb_alive (exec no_relay exact [HcStart; LbCycle 4 RequestFailed] start) = false.
Proof.
  split; [reflexivity|].
  destruct (empty_registry_kills_selection no_relay exact 4%nat RequestFailed
              eq_refl) as (_ & _ & H & _).
  exact H.
Defined.

(** ** How [select_server] ends *)

Lemma mean_metrics_raises (float_of_fraction : Q -> Q)
      (metrics : Dict.t (list pyfloat)) :
  Exists (fun item => snd item = []) metrics ->
  mean_metrics float_of_fraction metrics = Raise StatisticsError.
Proof.
  induction metrics as [|[server data] metrics IH]; intros Hex;
    [inversion Hex|].
  cbn [mean_metrics]. destruct data as [|x data]; [reflexivity|].
  rewrite mean_nonempty by discriminate. cbn [bind].
  rewrite IH; [reflexivity|].
  inversion Hex as [? ? H|]; subst; [discriminate H | assumption].
Qed.

Lemma select_server_total (float_of_fraction : Q -> Q) (r : nat)
      (first : string * list pyfloat) (rest : Dict.t (list pyfloat))
      (g : Globals) :
  Forall (fun item => snd item <> []) (first :: rest) ->
  mean_value float_of_fraction (snd first) <> NaN ->
  exists a, select_server float_of_fraction r (first :: rest) g
            = Ret (set_turn_server g a) /\
            In a (Dict.keys (first :: rest)).
Proof.
  intros Hdata Hfirst.
  destruct (select_server_min float_of_fraction r first rest g Hdata Hfirst)
    as (a & data & _ & Hsel & Hin & _).
  exists a. split; [assumption|].
  unfold Dict.keys. apply in_map_iff. now exists (a, data).
Qed.

(** X13. [select_server] ends in one of four ways: on an empty map it raises
    [ValueError] (the minimum of no mean); on a map in which some endpoint
    has no sample it raises [StatisticsError]; on a map of non-empty sample
    lists of which the first mean is [nan] it raises [IndexError] (nothing is
    equal to the minimum); and on a map of non-empty sample lists of which
    the first mean is not [nan] it returns, the active endpoint of the state
    it returns being a key of the map and the table left as it was. *)
Theorem select_server_outcomes (float_of_fraction : Q -> Q) (r : nat)
        (metrics : Dict.t (list pyfloat)) (g : Globals) :
  (metrics = [] ->
   select_server float_of_fraction r metrics g = Raise ValueError) /\
  (Exists (fun item => snd item = []) metrics ->
   select_server float_of_fraction r metrics g = Raise StatisticsError) /\
  (Forall (fun item => snd item <> []) metrics ->
   forall first, hd_error metrics = Some first ->
     (mean_value float_of_fraction (snd first) = NaN ->
      select_server float_of_fraction r metrics g = Raise IndexError) /\
     (mean_value float_of_fraction (snd first) <> NaN ->
      exists a g',
        select_server float_of_fraction r metrics g = Ret g' /\
        turn_server g' = Some a /\
        turn_data g' = turn_data g /\
        In a (Dict.keys metrics))).
Proof.
  split; [intros ->; reflexivity|]. split.
  - intros Hex. unfold select_server.
    rewrite (mean_metrics_raises _ _ Hex). reflexivity.
  - intros Hdata first Hhd.
    destruct metrics as [|first' rest]; [discriminate Hhd|].
    inversion Hhd; subst first'. split.
    + intros Hnan. now apply select_server_nan.
    + intros Hfirst.
      destruct (select_server_total float_of_fraction r first rest g
                  Hdata Hfirst) as [a [Hsel Hin]].
      exists a, (set_turn_server g a).
      split; [assumption|]. split; [reflexivity|]. split; [reflexivity|].
      assumption.
Qed.

Lemma select_server_outcomes_witness :
  Forall (fun item => snd item <> []) tie_metrics /\
  hd_error tie_metrics = Some ("A", [Finite 10; Finite 10]) /\
  mean_value exact [Finite 10; Finite 10] <> NaN /\
  exists a g',
    select_server exact 0 tie_metrics both_healthy = Ret g' /\
    turn_server g' = Some a /\
    turn_data g' = turn_data both_healthy /\
    In a (Dict.keys tie_metrics).
Proof.
  assert (H : Forall (fun item : string * list pyfloat => snd item <> [])
                     tie_metrics)
    by (repeat constructor; discriminate).
  assert (Hn : mean_value exact [Finite 10; Finite 10] <> NaN) by discriminate.
  split; [exact H|]. split; [reflexivity|]. split; [exact Hn|].
  destruct (select_server_outcomes exact 0%nat tie_metrics both_healthy)
    as (_ & _ & Hs).
  destruct (Hs H ("A", [Finite 10; Finite 10]) eq_refl) as [_ Hret].
  exact (Hret Hn).
Defined.

(** ** The metric-driven pass on a result list *)

Lemma lb_run_cycle_metrics (config : Config) (float_of_fraction : Q -> Q)
      (r : nat) (l : list Series) (g : Globals) (d : Dict.t EndpointHealth) :
  String.eqb (algorithm config) "random" = false ->
  turn_data g = Some d ->
  (2 <= length (healthy_servers d))%nat ->
  l <> [] ->
  lb_run_cycle config float_of_fraction r (ResponseResult l) g =
  (metrics <- process_metrics config l ;;
   match metrics with
   | [] => random_healthy_server config r g
   | _ => select_server float_of_fraction r metrics g
   end).
Proof.
  intros Hmode Hd Hlen Hne. unfold lb_run_cycle. rewrite Hmode, Hd. simpl.
  rewrite cycle_healthy_servers.
  destruct (healthy_servers d) as [|h1 [|h2 hs]]; simpl in Hlen; try lia.
  simpl. destruct l as [|s l]; [congruence | reflexivity].
Qed.

Lemma process_metrics_from_rejects (config : Config) (l : list Series) :
  Exists (fun s => ~ recognized config s) l ->
  forall acc, process_metrics_from config acc l = Raise ConfigError.
Proof.
  unfold recognized.
  induction l as [|s l IH]; intros Hex acc; [inversion Hex|].
  simpl. destruct (server_truth (find_label config (metric s))) eqn:Et;
    [|reflexivity].
  assert (Hl : Exists (fun s0 =>
                 server_truth (find_label config (metric s0)) <> true) l).
  { inversion Hex as [? ? H|]; subst; [contradiction | assumption]. }
  simpl.
  destruct (find_label config (metric s)) as [label|] eqn:Ef;
    [|discriminate Et].
  destruct (Z.of_nat _ <? _); [now apply IH|]. simpl.
  destruct (find_label_get_some config _ _ Ef) as [server Hs].
  rewrite Hs. simpl. now apply IH.
Qed.

Lemma process_metrics_nonempty_data (config : Config) (l : list Series)
      (m : Dict.t (list pyfloat)) :
  0 < durationMinutes config ->
  process_metrics config l = Ret m ->
  Forall (fun item => snd item <> []) m.
Proof.
  intros Hdur Hm. unfold process_metrics in Hm.
  destruct (process_metrics_from_spec config l [] m Hm) as (Ha & _).
  apply Forall_forall. intros [server data] Hin. simpl.
  destruct (Ha server data Hin) as [[]|[s (_ & _ & _ & Hlen)]].
  intros ->. simpl in Hlen. lia.
Qed.

(** On a result of which no series has a [nan] mean, the comparison of the
    means returns one of the endpoints of the map. *)
Lemma select_server_on_result (config : Config) (float_of_fraction : Q -> Q)
      (r : nat) (l : list Series) (g : Globals)
      (first : string * list pyfloat) (rest : Dict.t (list pyfloat)) :
  0 < durationMinutes config ->
  Forall (fun s => mean_value float_of_fraction (samples s) <> NaN) l ->
  process_metrics config l = Ret (first :: rest) ->
  exists a s,
    select_server float_of_fraction r (first :: rest) g
    = Ret (set_turn_server g a) /\
    In s l /\ endpoint_of config s = Some a.
Proof.
  intros Hdur Hnan Hm.
  pose proof (process_metrics_nonempty_data config l _ Hdur Hm) as Hdata.
  pose proof Hm as Hm'. unfold process_metrics in Hm'.
  destruct (process_metrics_from_spec config l [] _ Hm') as (Ha & _).
  rewrite Forall_forall in Hnan.
  assert (Hfirst : mean_value float_of_fraction (snd first) <> NaN).
  { destruct first as [k v]. simpl.
    destruct (Ha k v (or_introl eq_refl)) as [[]|[s (Hs & _ & Hv & _)]].
    subst v. now apply Hnan. }
  destruct (select_server_total float_of_fraction r first rest g Hdata Hfirst)
    as [a [Hsel Hin]].
  destruct (In_keys_get a _ Hin) as [data Hg].
  destruct (Ha a data (get_In _ _ _ Hg)) as [[]|[s (Hs & He & _)]].
  exists a, s. auto.
Qed.

(** X14. In metric-driven mode with more than one Healthy endpoint and a
    positive [durationMinutes], a result list none of whose series has a
    [nan] mean acts on the selection pass through its labels only: when
    every series is recognized the pass returns, and the state it returns
    has an active endpoint and the table of the state before; when one
    series is not recognized, the pass raises the configuration error. *)
Theorem cycle_returns_iff_recognized (config : Config)
        (float_of_fraction : Q -> Q) (r : nat) (l : list Series)
        (g : Globals) (d : Dict.t EndpointHealth) :
  String.eqb (algorithm config) "random" = false ->
  turn_data g = Some d ->
  (2 <= length (healthy_servers d))%nat ->
  0 < durationMinutes config ->
  (Forall (recognized config) l ->
   Forall (fun s => mean_value float_of_fraction (samples s) <> NaN) l ->
   exists a g',
     lb_run_cycle config float_of_fraction r (ResponseResult l) g = Ret g' /\
     turn_server g' = Some a /\
     turn_data g' = turn_data g) /\
  (Exists (fun s => ~ recognized config s) l ->
   lb_run_cycle config float_of_fraction r (ResponseResult l) g
   = Raise ConfigError).
Proof.
  intros Hmode Hd Hlen Hdur.
  assert (Hne : healthy_servers d <> []).
  { destruct (healthy_servers d); [simpl in Hlen; lia | discriminate]. }
  assert (Hrh : exists a g',
            random_healthy_server config r g = Ret g' /\
            turn_server g' = Some a /\ turn_data g' = turn_data g).
  { destruct (random_healthy_server_draw config r g d Hd Hne)
      as [a (_ & _ & Hg')].
    exists a, (set_turn_server g a). auto. }
  split.
  - intros Hrec Hnan. destruct l as [|s l].
    + assert (E : lb_run_cycle config float_of_fraction r (ResponseResult []) g
                  = random_healthy_server config r g).
      { unfold lb_run_cycle. rewrite Hmode, Hd. simpl.
        rewrite cycle_healthy_servers.
        destruct (healthy_servers d) as [|h1 [|h2 hs]]; simpl in Hlen; try lia.
        reflexivity. }
      rewrite E. exact Hrh.
    + rewrite (lb_run_cycle_metrics config float_of_fraction r (s :: l) g d)
        by (auto; discriminate).
      destruct (process_metrics_from_total config (s :: l) Hrec []) as [m Hm].
      fold (process_metrics config (s :: l)) in Hm. rewrite Hm. cbn [bind].
      destruct m as [|x m]; [exact Hrh|].
      destruct (select_server_on_result config float_of_fraction r (s :: l) g
                  x m Hdur Hnan Hm) as (a & _ & Hsel & _).
      exists a, (set_turn_server g a). auto.
  - intros Hex.
    assert (Hl : l <> []) by (destruct l; [inversion Hex | discriminate]).
    rewrite (lb_run_cycle_metrics config float_of_fraction r l g d) by auto.
    unfold process_metrics. rewrite process_metrics_from_rejects by assumption.
    reflexivity.
Qed.

Lemma cycle_returns_iff_recognized_witness :
  String.eqb (algorithm example_config) "random" = false /\
  0 < durationMinutes example_config /\
  Forall (recognized example_config) [short_series; full_series] /\
  Forall (fun s => mean_value exact (samples s) <> NaN)
         [short_series; full_series] /\
  exists g',
    lb_run_cycle example_config exact 0
                 (ResponseResult [short_series; full_series]) second_active
    = Ret g' /\
    turn_server g' = Some "10.0.0.1" /\
    turn_data g' = turn_data second_active.
Proof.
  assert (Hlen : (2 <= length (healthy_servers
                    [("10.0.0.1", known 3 true 0); ("10.0.0.2", known 3 true 0)]))%nat)
    by (simpl; lia).
  assert (Hdur : 0 < durationMinutes example_config) by (simpl; lia).
  assert (Hrec : Forall (recognized example_config) [short_series; full_series])
    by (repeat constructor).
  assert (Hnan : Forall (fun s => mean_value exact (samples s) <> NaN)
                        [short_series; full_series])
    by (repeat constructor; discriminate).
  split; [reflexivity|]. split; [exact Hdur|]. split; [exact Hrec|].
  split; [exact Hnan|].
  destruct (cycle_returns_iff_recognized example_config exact 0%nat
              [short_series; full_series] second_active _
              eq_refl eq_refl Hlen Hdur) as [H _].
  destruct (H Hrec Hnan) as (a & g' & Hrun & Hts & Htd).
  exists g'. split; [exact Hrun|]. split; [|exact Htd].
  vm_compute in Hrun. inversion Hrun; subst g'. reflexivity.
Defined.

(** ** Several series of one endpoint *)

Lemma process_metrics_from_app (config : Config) (l1 l2 : list Series) :
  forall acc,
  process_metrics_from config acc (l1 ++ l2) =
  (acc' <- process_metrics_from config acc l1 ;;
   process_metrics_from config acc' l2).
Proof.
  induction l1 as [|s l1 IH]; intros acc; simpl; [reflexivity|].
  destruct (negb (server_truth (find_label config (metric s))));
    [reflexivity|].
  destruct (Z.of_nat _ <? _); [apply IH|].
  destruct (find_label config (metric s)) as [label|]; simpl; [|reflexivity].
  destruct (Dict.get label (metric s)) as [server|]; simpl; [|reflexivity].
  apply IH.
Qed.

Lemma process_metrics_from_keeps (config : Config) (a : string)
      (l : list Series) :
  Forall (fun s => endpoint_of config s = Some a -> ~ sufficient config s) l ->
  forall acc m,
  process_metrics_from config acc l = Ret m ->
  Dict.get a m = Dict.get a acc.
Proof.
  unfold sufficient.
  induction 1 as [|s l Hs Hl IH]; intros acc m; simpl.
  - intros H. inversion H. reflexivity.
  - destruct (negb (server_truth (find_label config (metric s))));
      [discriminate|].
    fold (samples s).
    destruct (Z.ltb_spec (Z.of_nat (length (samples s)))
                         (durationMinutes config)) as [Hshort|Hlong];
      [apply IH|].
    destruct (find_label config (metric s)) as [label|] eqn:Ef; simpl;
      [|discriminate].
    destruct (Dict.get label (metric s)) as [server|] eqn:Eg; simpl;
      [|discriminate].
    intros H. rewrite (IH _ _ H).
    apply get_set_other. intros E. subst server.
    apply Hs; [|assumption]. unfold endpoint_of. now rewrite Ef.
Qed.

(** X15. When the result list has several series of one endpoint, the
    samples [process_metrics] keeps for it are those of the last of its
    series that has at least [durationMinutes] samples: an earlier one is
    overwritten, a later one with fewer samples is skipped. *)
Theorem last_sufficient_series_wins (config : Config) (l1 l2 : list Series)
        (s : Series) (a : string) (m : Dict.t (list pyfloat)) :
  process_metrics config (l1 ++ s :: l2) = Ret m ->
  endpoint_of config s = Some a ->
  sufficient config s ->
  Forall (fun s' => endpoint_of config s' = Some a -> ~ sufficient config s')
         l2 ->
  Dict.get a m = Some (samples s).
Proof.
  unfold process_metrics. intros Hm He Hsuf Hl2.
  rewrite process_metrics_from_app in Hm.
  apply bind_ret in Hm. destruct Hm as [acc1 [_ Hm]].
  simpl in Hm.
  destruct (negb (server_truth (find_label config (metric s))));
    [discriminate|].
  fold (samples s) in Hm. unfold sufficient in Hsuf.
  destruct (Z.ltb_spec (Z.of_nat (length (samples s)))
                       (durationMinutes config)) as [Hshort|Hlong]; [lia|].
  unfold endpoint_of in He.
  destruct (find_label config (metric s)) as [label|]; [|discriminate].
  simpl in Hm. rewrite He in Hm. simpl in Hm.
  rewrite (process_metrics_from_keeps config a l2 Hl2 _ _ Hm).
  apply get_set_same.
Qed.

Lemma last_sufficient_series_wins_witness :
  process_metrics example_config
    ([earlier_series] ++ full_series :: [later_short_series])
  = Ret [("10.0.0.1", [Finite 7; Finite 9])] /\
  endpoint_of example_config full_series = Some "10.0.0.1" /\
  sufficient example_config full_series /\
  Dict.get "10.0.0.1" [("10.0.0.1", [Finite 7; Finite 9])] = Some (samples full_series).
Proof.
  assert (H1 : endpoint_of example_config full_series = Some "10.0.0.1")
    by reflexivity.
  assert (H2 : sufficient example_config full_series)
    by (unfold sufficient; simpl; lia).
  assert (Hm : process_metrics example_config
                 ([earlier_series] ++ full_series :: [later_short_series])
               = Ret [("10.0.0.1", [Finite 7; Finite 9])]) by reflexivity.
  split; [exact Hm|]. split; [exact H1|]. split; [exact H2|].
  apply (last_sufficient_series_wins example_config _ _ full_series
           "10.0.0.1" _ Hm H1 H2).
  repeat constructor. unfold sufficient. simpl. intros _. lia.
Defined.

(** ** What the metric-driven pass trusts *)

(** X16. The metric-driven pass does not look at the health of the endpoint
    it selects: in metric-driven mode with more than one Healthy endpoint and
    a positive [durationMinutes], when every series of the result is
    recognized and attributed to one endpoint, none has a [nan] mean and one
    has enough samples, the pass returns a state whose active endpoint is
    that endpoint, be it Healthy or not, the table being left as it was. *)
Theorem metric_pass_follows_result (config : Config)
        (float_of_fraction : Q -> Q) (r : nat) (l : list Series)
        (g : Globals) (d : Dict.t EndpointHealth) (a : string) :
  String.eqb (algorithm config) "random" = false ->
  turn_data g = Some d ->
  (2 <= length (healthy_servers d))%nat ->
  0 < durationMinutes config ->
  Forall (recognized config) l ->
  Forall (fun s => endpoint_of config s = Some a) l ->
  Forall (fun s => mean_value float_of_fraction (samples s) <> NaN) l ->
  Exists (sufficient config) l ->
  exists g',
    lb_run_cycle config float_of_fraction r (ResponseResult l) g = Ret g' /\
    turn_server g' = Some a /\
    turn_data g' = turn_data g.
Proof.
  intros Hmode Hd Hlen Hdur Hrec Hall Hnan Hex.
  assert (Hl : l <> []) by (destruct l; [inversion Hex | discriminate]).
  rewrite (lb_run_cycle_metrics config float_of_fraction r l g d) by auto.
  destruct (process_metrics_from_total config l Hrec []) as [m Hm].
  fold (process_metrics config l) in Hm. rewrite Hm. cbn [bind].
  pose proof Hm as Hm'. unfold process_metrics in Hm'.
  destruct (process_metrics_from_spec config l [] m Hm') as (_ & Hb & _).
  apply Exists_exists in Hex. destruct Hex as [s [Hs Hsuf]].
  rewrite Forall_forall in Hall.
  pose proof (Hb s a Hs (Hall s Hs) Hsuf) as Hkey.
  destruct m as [|x m]; [destruct Hkey|].
  destruct (select_server_on_result config float_of_fraction r l g x m
              Hdur Hnan Hm) as (a' & s' & Hsel & Hs' & He').
  rewrite (Hall s' Hs') in He'. inversion He'; subst a'.
  exists (set_turn_server g a). auto.
Qed.

Lemma metric_pass_follows_result_witness :
  String.eqb (algorithm three_relays) "random" = false /\
  0 < durationMinutes three_relays /\
  ~ In "10.0.0.3"
       (healthy_servers [("10.0.0.1", known 2 true 0);
                         ("10.0.0.2", known 2 true 0);
                         ("10.0.0.3", known 2 false 2)]) /\
  mean_value exact (samples third_series) <> NaN /\
  turn_server third_down = Some "10.0.0.1" /\
  exists g',
    lb_run_cycle three_relays exact 0 (ResponseResult [third_series]) third_down
    = Ret g' /\
    turn_server g' = Some "10.0.0.3" /\
    turn_data g' = turn_data third_down.
Proof.
  assert (Hdur : 0 < durationMinutes three_relays) by (simpl; lia).
  assert (Hnan : mean_value exact (samples third_series) <> NaN)
    by discriminate.
  split; [reflexivity|]. split; [exact Hdur|]. split.
  - simpl. intros [E|[E|[]]]; discriminate.
  - split; [exact Hnan|]. split; [reflexivity|].
    apply (metric_pass_follows_result three_relays exact 0%nat [third_series]
             third_down _ "10.0.0.3" eq_refl eq_refl).
    + simpl. lia.
    + exact Hdur.
    + repeat constructor.
    + repeat constructor.
    + constructor; [exact Hnan | constructor].
    + apply Exists_cons_hd. unfold sufficient. simpl. lia.
Defined.

(** ** The fallbacks *)

Lemma choice_complete {A : Type} (x : A) (seq : list A) :
  In x seq -> exists r, choice r seq = Ret x.
Proof.
  intros Hin. destruct (In_nth_error _ _ Hin) as [n Hn].
  exists n. unfold choice.
  assert (n < length seq)%nat by (apply nth_error_Some; congruence).
  rewrite Nat.mod_small by assumption. rewrite Hn. reflexivity.
Qed.

(** X17. The random-healthy selection can publish every Healthy endpoint and
    nothing else: for each Healthy endpoint some draw makes it the active
    endpoint of the state returned, and when some endpoint is Healthy the
    active endpoint of every state returned is Healthy; when none is, for
    each address of the registry some draw makes it the active endpoint.
    The table is never changed. *)
Theorem fallback_reaches_every_endpoint (config : Config) (g : Globals)
        (d : Dict.t EndpointHealth) (a : string) :
  turn_data g = Some d ->
  (In a (healthy_servers d) ->
   exists r g', random_healthy_server config r g = Ret g' /\
                turn_server g' = Some a /\ turn_data g' = turn_data g) /\
  (healthy_servers d <> [] ->
   forall r g', random_healthy_server config r g = Ret g' ->
                exists a', turn_server g' = Some a' /\
                           turn_data g' = turn_data g /\
                           In a' (healthy_servers d)) /\
  (healthy_servers d = [] -> In a (registry config) ->
   exists r g', random_healthy_server config r g = Ret g' /\
                turn_server g' = Some a /\ turn_data g' = turn_data g).
Proof.
  intros Hd. unfold random_healthy_server. rewrite Hd. simpl. split; [|split].
  - intros Hin. destruct (choice_complete a _ Hin) as [r Hr].
    exists r, (set_turn_server g a).
    destruct (healthy_servers d) as [|h hs]; [destruct Hin|].
    rewrite Hr. split; [reflexivity|]. split; [reflexivity | exact Hd].
  - intros Hne r g' H.
    destruct (healthy_servers d) as [|h hs] eqn:E; [congruence|].
    apply bind_ret in H. destruct H as [a' [Ha' H]]. inversion H; subst.
    exists a'. split; [reflexivity|]. split; [exact Hd|].
    eapply choice_In; eauto.
  - intros Hnil Hin. rewrite Hnil. unfold random_server.
    destruct (choice_complete a _ Hin) as [r Hr].
    exists r, (set_turn_server g a). rewrite Hr.
    split; [reflexivity|]. split; [reflexivity | exact Hd].
Qed.

Lemma fallback_reaches_every_endpoint_witness :
  In "10.0.0.2" (healthy_servers
                   [("10.0.0.1", known 3 true 0); ("10.0.0.2", known 3 true 0)]) /\
  turn_server both_healthy = Some "10.0.0.1" /\
  exists r g', random_healthy_server example_config r both_healthy = Ret g' /\
               turn_server g' = Some "10.0.0.2" /\
               turn_data g' = turn_data both_healthy.
Proof.
  assert (Hin : In "10.0.0.2"
                   (healthy_servers
                      [("10.0.0.1", known 3 true 0); ("10.0.0.2", known 3 true 0)]))
    by (simpl; auto).
  split; [exact Hin|]. split; [reflexivity|].
  destruct (fallback_reaches_every_endpoint example_config both_healthy _
              "10.0.0.2" eq_refl) as [H _].
  exact (H Hin).
Defined.

(** ** A first mean that is not a number *)

Lemma process_metrics_from_head (config : Config) (l : list Series) :
  forall k v acc m,
  process_metrics_from config ((k, v) :: acc) l = Ret m ->
  exists v' m', m = (k, v') :: m'.
Proof.
  induction l as [|s l IH]; intros k v acc m; simpl.
  - intros H. inversion H. eauto.
  - destruct (negb (server_truth (find_label config (metric s))));
      [discriminate|].
    destruct (Z.of_nat _ <? _); [apply IH|].
    destruct (find_label config (metric s)) as [label|]; simpl;
      [|discriminate].
    destruct (Dict.get label (metric s)) as [server|]; simpl; [|discriminate].
    destruct (String.eqb server k); apply IH.
Qed.

Lemma mean_value_nan_sample (float_of_fraction : Q -> Q)
      (data : list pyfloat) :
  In NaN data -> mean_value float_of_fraction data = NaN.
Proof.
  intros Hin. unfold mean_value.
  assert (Hsome : forall xs, special_total (Some NaN) xs = Some NaN).
  { induction xs as [|x xs IH]; simpl; [reflexivity|].
    destruct x; simpl; assumption. }
  assert (H : forall total, special_total total data = Some NaN).
  { induction data as [|x data IH]; [destruct Hin|]. intros total.
    destruct Hin as [->|Hin].
    - simpl. destruct total as [t|]; [|apply Hsome].
      destruct t; simpl; apply Hsome.
    - destruct x; simpl; auto. }
  now rewrite H.
Qed.

(** X18. A first series whose mean is [nan] ends the selection thread.  In
    metric-driven mode with more than one Healthy endpoint and a positive
    [durationMinutes], when every series of the result is recognized and the
    first one has enough samples, a mean that is [nan] (as with a [nan]
    sample) and no later series of its endpoint with enough samples, the
    selection pass raises [IndexError] for every draw; the active endpoint
    stays as it was, the selection thread is dead from then on, and
    [check_threads] returns at its next poll. *)
Theorem nan_mean_kills_selection (config : Config)
        (float_of_fraction : Q -> Q) (r : nat) (s0 : Series) (l : list Series)
        (g : Globals) (d : Dict.t EndpointHealth) (a0 : string) :
  String.eqb (algorithm config) "random" = false ->
  turn_data g = Some d ->
  (2 <= length (healthy_servers d))%nat ->
  0 < durationMinutes config ->
  Forall (recognized config) (s0 :: l) ->
  endpoint_of config s0 = Some a0 ->
  sufficient config s0 ->
  Forall (fun s => endpoint_of config s = Some a0 -> ~ sufficient config s) l ->
  mean_value float_of_fraction (samples s0) = NaN ->
  lb_run_cycle config float_of_fraction r (ResponseResult (s0 :: l)) g
  = Raise IndexError /\
  (forall s, globals s = g -> lb_alive s = true -> waiting g = false ->
     step config float_of_fraction s (LbCycle r (ResponseResult (s0 :: l)))
     = lb_dead s /\
     turn_server (globals (lb_dead s)) = turn_server g /\
     lb_alive (lb_dead s) = false /\
     (forall r' resp',
        step config float_of_fraction (lb_dead s) (LbCycle r' resp')
        = lb_dead s) /\
     (forall polls, check_threads (lb_dead s :: polls) = true)).
Proof.
  intros Hmode Hd Hlen Hdur Hrec He Hsuf Hlater Hnan.
  assert (Hc : lb_run_cycle config float_of_fraction r
                 (ResponseResult (s0 :: l)) g = Raise IndexError).
  { rewrite (lb_run_cycle_metrics config float_of_fraction r (s0 :: l) g d)
      by (auto; discriminate).
    destruct (process_metrics_from_total config (s0 :: l) Hrec []) as [m Hm].
    fold (process_metrics config (s0 :: l)) in Hm. rewrite Hm. cbn [bind].
    pose proof (process_metrics_nonempty_data config _ _ Hdur Hm) as Hdata.
    assert (Hhead : exists m', m = (a0, samples s0) :: m').
    { unfold process_metrics in Hm. simpl in Hm.
      destruct (negb (server_truth (find_label config (metric s0))));
        [discriminate|].
      fold (samples s0) in Hm. unfold sufficient in Hsuf.
      destruct (Z.ltb_spec (Z.of_nat (length (samples s0)))
                           (durationMinutes config)) as [Hshort|Hlong]; [lia|].
      unfold endpoint_of in He.
      destruct (find_label config (metric s0)) as [label|]; [|discriminate].
      simpl in Hm. rewrite He in Hm. simpl in Hm.
      pose proof (process_metrics_from_keeps config a0 l Hlater _ _ Hm) as Hk.
      destruct (process_metrics_from_head config l _ _ _ _ Hm)
        as (v' & m' & ->).
      simpl in Hk. rewrite String.eqb_refl in Hk.
      inversion Hk; subst v'. eauto. }
    destruct Hhead as [m' ->].
    now apply select_server_nan. }
  split; [assumption|].
  intros s Hg Halive Hw. subst g.
  split; [simpl; now rewrite Halive, Hw, Hc|].
  split; [reflexivity|]. split; [reflexivity|]. split; [reflexivity|].
  intros polls. simpl. destruct (hc_alive s); reflexivity.
Qed.

Lemma nan_mean_kills_selection_witness :
  String.eqb (algorithm example_config) "random" = false /\
  0 < durationMinutes example_config /\
  Forall (recognized example_config) [nan_series; full_second_series] /\
  endpoint_of example_config nan_series = Some "10.0.0.1" /\
  sufficient example_config nan_series /\
  In NaN (samples nan_series) /\
  mean_value exact (samples nan_series) = NaN /\
  lb_run_cycle example_config exact 0
               (ResponseResult [nan_series; full_second_series]) both_healthy
  = Raise IndexError.
Proof.
  assert (Hlen : (2 <= length (healthy_servers
                    [("10.0.0.1", known 3 true 0); ("10.0.0.2", known 3 true 0)]))%nat)
    by (simpl; lia).
  assert (Hdur : 0 < durationMinutes example_config) by (simpl; lia).
  assert (Hrec : Forall (recognized example_config)
                        [nan_series; full_second_series])
    by (repeat constructor).
  assert (Hsuf : sufficient example_config nan_series)
    by (unfold sufficient; simpl; lia).
  assert (Hlater : Forall (fun s => endpoint_of example_config s
                                    = Some "10.0.0.1" ->
                                    ~ sufficient example_config s)
                          [full_second_series]).
  { constructor; [|constructor]. intros E. discriminate E. }
  split; [reflexivity|]. split; [exact Hdur|]. split; [exact Hrec|].
  split; [reflexivity|]. split; [exact Hsuf|].
  split; [simpl; auto|]. split; [reflexivity|].
  destruct (nan_mean_kills_selection example_config exact 0%nat nan_series
              [full_second_series] both_healthy _ "10.0.0.1"
              eq_refl eq_refl Hlen Hdur Hrec eq_refl Hsuf Hlater eq_refl)
    as [H _].
  exact H.
Defined.

(** ** The selection pass in random mode *)

(** X19. In random mode the selection pass does not depend on the metrics
    source: its outcome is the same for every answer, and when some endpoint
    is Healthy the pass returns a state whose active endpoint is a Healthy
    endpoint, the one drawn, the table being left as it was. *)
Theorem random_mode_selects_healthy (config : Config)
        (float_of_fraction : Q -> Q) (r : nat) (resp : http_outcome)
        (g : Globals) (d : Dict.t EndpointHealth) :
  String.eqb (algorithm config) "random" = true ->
  turn_data g = Some d ->
  healthy_servers d <> [] ->
  (forall resp',
     lb_run_cycle config float_of_fraction r resp' g
     = lb_run_cycle config float_of_fraction r resp g) /\
  exists a g',
    lb_run_cycle config float_of_fraction r resp g = Ret g' /\
    turn_server g' = Some a /\
    turn_data g' = turn_data g /\
    choice r (healthy_servers d) = Ret a /\
    In a (healthy_servers d).
Proof.
  intros Hmode Hd Hne. unfold lb_run_cycle. rewrite Hmode.
  split; [reflexivity|].
  destruct (random_healthy_server_draw config r g d Hd Hne)
    as [a (Hc & Hin & Hg')].
  exists a, (set_turn_server g a). auto.
Qed.

Lemma random_mode_selects_healthy_witness :
  String.eqb (algorithm random_mode) "random" = true /\
  healthy_servers [("10.0.0.1", known 3 false 3); ("10.0.0.2", known 3 true 0)]
  <> [] /\
  turn_server failover_site = Some "10.0.0.1" /\
  exists g',
    lb_run_cycle random_mode exact 7 ResponseMalformed failover_site = Ret g' /\
    turn_server g' = Some "10.0.0.2" /\
    turn_data g' = turn_data failover_site.
Proof.
  assert (Hne : healthy_servers
                  [("10.0.0.1", known 3 false 3); ("10.0.0.2", known 3 true 0)]
                <> []) by discriminate.
  split; [reflexivity|]. split; [exact Hne|]. split; [reflexivity|].
  destruct (random_mode_selects_healthy random_mode exact 7%nat
              ResponseMalformed failover_site _ eq_refl eq_refl Hne)
    as (_ & a & g' & Hrun & Hts & Htd & _ & Hin).
  exists g'. split; [exact Hrun|]. split; [|exact Htd].
  destruct Hin as [E|[]]. subst a. exact Hts.
Defined.

(** X20. When the metrics source honours the filter of the query, the
    metric-driven pass stays among the Healthy endpoints: in metric-driven
    mode with more than one Healthy endpoint and a positive
    [durationMinutes], when every series of the result is recognized and
    attributed to a Healthy endpoint and none has a [nan] mean, the pass
    returns a state whose active endpoint is Healthy, whether it compares
    means or falls back, the table being left as it was. *)
Theorem metric_pass_stays_healthy (config : Config)
        (float_of_fraction : Q -> Q) (r : nat) (l : list Series)
        (g : Globals) (d : Dict.t EndpointHealth) :
  String.eqb (algorithm config) "random" = false ->
  turn_data g = Some d ->
  (2 <= length (healthy_servers d))%nat ->
  0 < durationMinutes config ->
  Forall (recognized config) l ->
  Forall (fun s => exists a, endpoint_of config s = Some a /\
                             In a (healthy_servers d)) l ->
  Forall (fun s => mean_value float_of_fraction (samples s) <> NaN) l ->
  exists a g',
    lb_run_cycle config float_of_fraction r (ResponseResult l) g = Ret g' /\
    turn_server g' = Some a /\
    turn_data g' = turn_data g /\
    In a (healthy_servers d).
Proof.
  intros Hmode Hd Hlen Hdur Hrec Hall Hnan.
  assert (Hne : healthy_servers d <> []).
  { destruct (healthy_servers d); [simpl in Hlen; lia | discriminate]. }
  assert (Hrh : exists a g',
            random_healthy_server config r g = Ret g' /\
            turn_server g' = Some a /\ turn_data g' = turn_data g /\
            In a (healthy_servers d)).
  { destruct (random_healthy_server_draw config r g d Hd Hne)
      as [a (_ & Hin & Hg')].
    exists a, (set_turn_server g a). auto. }
  destruct l as [|s0 l0].
  { assert (E : lb_run_cycle config float_of_fraction r (ResponseResult []) g
                = random_healthy_server config r g).
    { unfold lb_run_cycle. rewrite Hmode, Hd. simpl.
      rewrite cycle_healthy_servers.
      destruct (healthy_servers d) as [|h1 [|h2 hs]]; simpl in Hlen; try lia.
      reflexivity. }
    rewrite E. exact Hrh. }
  set (l := s0 :: l0) in *.
  rewrite (lb_run_cycle_metrics config float_of_fraction r l g d)
    by (auto; discriminate).
  destruct (process_metrics_from_total config l Hrec []) as [m Hm].
  fold (process_metrics config l) in Hm. rewrite Hm. cbn [bind].
  destruct m as [|x m]; [exact Hrh|].
  destruct (select_server_on_result config float_of_fraction r l g x m
              Hdur Hnan Hm) as (a' & s' & Hsel & Hs' & He').
  rewrite Forall_forall in Hall. destruct (Hall s' Hs') as [a [Hea Hin]].
  exists a', (set_turn_server g a').
  split; [assumption|]. split; [reflexivity|]. split; [reflexivity|].
  congruence.
Qed.

Lemma metric_pass_stays_healthy_witness :
  String.eqb (algorithm three_relays) "random" = false /\
  0 < durationMinutes three_relays /\
  Forall (fun s => mean_value exact (samples s) <> NaN)
         [full_series; short_series] /\
  ~ In "10.0.0.3" (healthy_servers
                     [("10.0.0.1", known 2 true 0);
                      ("10.0.0.2", known 2 true 0);
                      ("10.0.0.3", known 2 false 2)]) /\
  turn_server third_active = Some "10.0.0.3" /\
  exists a g',
    lb_run_cycle three_relays exact 0
                 (ResponseResult [full_series; short_series]) third_active
    = Ret g' /\
    turn_server g' = Some a /\
    turn_data g' = turn_data third_active /\
    In a (healthy_servers
            [("10.0.0.1", known 2 true 0);
             ("10.0.0.2", known 2 true 0);
             ("10.0.0.3", known 2 false 2)]).
Proof.
  assert (Hdur : 0 < durationMinutes three_relays) by (simpl; lia).
  assert (Hnan : Forall (fun s => mean_value exact (samples s) <> NaN)
                        [full_series; short_series])
    by (repeat constructor; discriminate).
  split; [reflexivity|]. split; [exact Hdur|]. split; [exact Hnan|].
  split; [simpl; intros [E|[E|[]]]; discriminate|]. split; [reflexivity|].
  apply (metric_pass_stays_healthy three_relays exact 0%nat
           [full_series; short_series] third_active _ eq_refl eq_refl).
  - simpl. lia.
  - exact Hdur.
  - repeat constructor.
  - constructor; [exists "10.0.0.1"; split; [reflexivity | simpl; auto]|].
    constructor; [exists "10.0.0.2"; split; [reflexivity | simpl; auto]|].
    constructor.
  - exact Hnan.
Defined.
